(** * Shoutbox client SDK: email-options normalization and dispatch

    A shallow embedding of [src/index.ts] (two revisions), [src/smtp.ts] and
    [src/types.ts], and the properties of the specification checked on it.

    Conventions of the embedding.
    - A JavaScript string is a sequence of UTF-16 code units.  The embedding
      covers the code units below 256 (the Latin-1 range) and writes each as
      one [ascii]; [String.length] is therefore JavaScript's [.length].
      The bytes such a string occupies on the wire are those of its UTF-8
      encoding, [utf8_encode].
    - A [Buffer] is a [list byte].
    - [Record<string, string>] is a [gmap string string].
    - The platform the code calls into (file system, MIME table, template
      renderer, [fetch], the SMTP transport, the process environment) is the
      class [Collaborators]; every call is recorded in a trace of [event]s. *)

From Stdlib Require Import ZArith NArith Lia Ascii.
From Stdlib.Strings Require Import Byte.
From stdpp Require Import base option list strings gmap pretty.

Local Open Scope N_scope.

(** ** JavaScript strings *)

Module Js.

Definition dquote : ascii := "034"%char.
Definition backslash : ascii := "092"%char.
Definition slash : ascii := "047"%char.
Definition lt : ascii := "060"%char.
Definition gt : ascii := "062"%char.
Definition dollar : ascii := "036"%char.

Definition chars (s : string) : list ascii := String.list_ascii_of_string s.
Definition str (l : list ascii) : string := String.string_of_list_ascii l.

(** [s.length] *)
Definition length (s : string) : Z := Z.of_nat (String.length s).

(** Truthiness of a string value: only the empty string is falsy. *)
Definition truthy (s : string) : bool :=
  match s with EmptyString => false | String _ _ => true end.

(** [a || b] on optional strings ([undefined] and the empty string are falsy). *)
Definition or_else (a b : option string) : option string :=
  match a with
  | Some s => if truthy s then a else b
  | None => b
  end.

(** The truthy value of an optional string, if any. *)
Definition truthy_opt (a : option string) : option string :=
  match a with
  | Some s => if truthy s then Some s else None
  | None => None
  end.

(** ASCII lower-casing, the canonicalisation an [i] flag applies to the
    ASCII letters of a pattern. *)
Definition lower (c : ascii) : ascii :=
  let n := N_of_ascii c in
  if (65 <=? n) && (n <=? 90) then ascii_of_N (n + 32) else c.

Fixpoint starts_with (p s : string) : bool :=
  match p, s with
  | EmptyString, _ => true
  | String a p', String b s' => if Ascii.eqb a b then starts_with p' s' else false
  | String _ _, EmptyString => false
  end.

Fixpoint starts_with_ci (p s : string) : bool :=
  match p, s with
  | EmptyString, _ => true
  | String a p', String b s' =>
      if Ascii.eqb (lower a) (lower b) then starts_with_ci p' s' else false
  | String _ _, EmptyString => false
  end.

(** White space and line terminators of ECMAScript among the code units
    below 256: TAB, LF, VT, FF, CR, SP, NBSP. *)
Definition is_space (c : ascii) : bool :=
  let n := N_of_ascii c in
  ((9 <=? n) && (n <=? 13)) || (n =? 32) || (n =? 160).

Fixpoint drop_while (p : ascii -> bool) (l : list ascii) : list ascii :=
  match l with
  | [] => []
  | c :: r => if p c then drop_while p r else l
  end.

Fixpoint take_while (p : ascii -> bool) (l : list ascii) : list ascii :=
  match l with
  | [] => []
  | c :: r => if p c then c :: take_while p r else []
  end.

(** [s.trim()] *)
Definition trim (s : string) : string :=
  str (rev (drop_while is_space (rev (drop_while is_space (chars s))))).

(** [array.join(sep)] on strings *)
Fixpoint join (sep : string) (l : list string) : string :=
  match l with
  | [] => EmptyString
  | [x] => x
  | x :: r => x +:+ sep +:+ join sep r
  end.

(** The text that follows the first ['>'] of [s], if [s] has one. *)
Fixpoint after_gt (s : string) : option string :=
  match s with
  | EmptyString => None
  | String c r => if Ascii.eqb c gt then Some r else after_gt r
  end.

(** [s.replace(/P[^>]*>/g, "")] for a pattern whose fixed part [P] is decided
    by [opens] on the text at the current position, is not empty and holds
    no ['>'].  Reading right to left, the first component is the result for
    the text from here on, the second the result for the text after the
    next ['>'], if there is one. *)
Fixpoint scan_tags (opens : string -> bool) (s : string) : string * option string :=
  match s with
  | EmptyString => (EmptyString, None)
  | String c r =>
      let '(out_r, in_r) := scan_tags opens r in
      (if opens s
       then match in_r with Some t => t | None => String c out_r end
       else String c out_r,
       if Ascii.eqb c gt then Some out_r else in_r)
  end.

Definition remove_tags (opens : string -> bool) (s : string) : string :=
  fst (scan_tags opens s).

(** [s.replace(/P[^>]*>/, "")]: the first match only. *)
Fixpoint remove_first_tag (opens : string -> bool) (s : string) : string :=
  match s with
  | EmptyString => EmptyString
  | String c r =>
      if opens s
      then match after_gt r with Some t => t | None => s end
      else String c (remove_first_tag opens r)
  end.

(** [String.fromCharCode(c).repeat(n)] *)
Fixpoint replicate (n : nat) (c : ascii) : string :=
  match n with
  | O => EmptyString
  | S n' => String c (replicate n' c)
  end.

(** UTF-8 encoding of a string of code units below 256. *)
Definition utf8_char (c : ascii) : list byte :=
  let n := N_of_ascii c in
  if n <? 128 then [byte_of_ascii c]
  else [byte_of_ascii (ascii_of_N (192 + n / 64));
        byte_of_ascii (ascii_of_N (128 + n mod 64))].

Definition utf8_encode (s : string) : list byte :=
  flat_map utf8_char (chars s).

Definition utf8_len (s : string) : nat := List.length (utf8_encode s).

(** [Buffer.byteLength(s, "utf8")] *)
Definition byteLength (s : string) : Z := Z.of_nat (utf8_len s).

End Js.

(** ** [path.basename] (POSIX) *)

(** Node scans the path from its end: trailing slashes are skipped, then the
    characters up to the preceding slash are the result. *)
Definition basename (path : string) : string :=
  let is_slash c := Ascii.eqb c Js.slash in
  Js.str (rev (Js.take_while (fun c => negb (is_slash c))
                 (Js.drop_while is_slash (rev (Js.chars path))))).

(** ** JSON values and [JSON.stringify] *)

#[warnings="-register-all"] Inductive json : Type :=
| JNull
| JBool (b : bool)
| JNum (n : Z)
| JStr (s : string)
| JArr (l : list json)
| JObj (members : list (string * json)).

Module JSON.

Definition hex_digit (n : N) : ascii :=
  if n <? 10 then ascii_of_N (48 + n) else ascii_of_N (87 + n).

(** QuoteJSONString, one code unit. *)
Definition quote_char (c : ascii) : string :=
  let n := N_of_ascii c in
  if n =? 8 then String Js.backslash "b"
  else if n =? 9 then String Js.backslash "t"
  else if n =? 10 then String Js.backslash "n"
  else if n =? 12 then String Js.backslash "f"
  else if n =? 13 then String Js.backslash "r"
  else if n =? 34 then String Js.backslash (String Js.dquote EmptyString)
  else if n =? 92 then String Js.backslash (String Js.backslash EmptyString)
  else if n <? 32 then
    String Js.backslash
      ("u00" +:+ String (hex_digit (n / 16))
                   (String (hex_digit (n mod 16)) EmptyString))
  else String c EmptyString.

Fixpoint escape (s : string) : string :=
  match s with
  | EmptyString => EmptyString
  | String c r => quote_char c +:+ escape r
  end.

Definition quote (s : string) : string :=
  String Js.dquote (escape s +:+ String Js.dquote EmptyString).

Fixpoint stringify (j : json) : string :=
  match j with
  | JNull => "null"
  | JBool true => "true"
  | JBool false => "false"
  | JNum n => pretty n
  | JStr s => quote s
  | JArr l => "[" +:+ Js.join "," (map stringify l) +:+ "]"
  | JObj ms =>
      "{" +:+ Js.join ","
                (map (fun m => quote (fst m) +:+ ":" +:+ stringify (snd m)) ms)
          +:+ "}"
  end.

(** The members of an object literal whose value is not [undefined]. *)
Fixpoint members (fields : list (string * option json)) : list (string * json) :=
  match fields with
  | [] => []
  | (k, Some v) :: r => (k, v) :: members r
  | (_, None) :: r => members r
  end.

Definition object (fields : list (string * option json)) : json :=
  JObj (members fields).




End JSON.

(** ** Base64, as [Buffer] encodes and decodes it *)

Module Base64.

Definition alphabet : string :=
  "ABCDEFGHIJKLMNOPQRSTUVWXYZabcdefghijklmnopqrstuvwxyz0123456789+/".

Definition pad : ascii := "061"%char.

(** The character of a six-bit value. *)
Definition char_of (v : N) : ascii :=
  if v <? 26 then ascii_of_N (65 + v)
  else if v <? 52 then ascii_of_N (97 + (v - 26))
  else if v <? 62 then ascii_of_N (48 + (v - 52))
  else if v =? 62 then "+"%char
  else "/"%char.

(** The six-bit value of a character; the decoder also takes the URL-safe
    letters ['-'] and ['_']. *)
Definition value_of (c : ascii) : option N :=
  let n := N_of_ascii c in
  if (65 <=? n) && (n <=? 90) then Some (n - 65)
  else if (97 <=? n) && (n <=? 122) then Some (n - 97 + 26)
  else if (48 <=? n) && (n <=? 57) then Some (n - 48 + 52)
  else if (n =? 43) || (n =? 45) then Some 62
  else if (n =? 47) || (n =? 95) then Some 63
  else None.

Definition byte_of (n : N) : byte := byte_of_ascii (ascii_of_N n).
Definition of_byte (b : byte) : N := N_of_ascii (ascii_of_byte b).

(** [buffer.toString("base64")] *)
Fixpoint encode (bs : list byte) : string :=
  match bs with
  | [] => EmptyString
  | [a] =>
      let a := of_byte a in
      String (char_of (a / 4)) (String (char_of (a mod 4 * 16))
        (String pad (String pad EmptyString)))
  | [a; b] =>
      let a := of_byte a in
      let b := of_byte b in
      String (char_of (a / 4)) (String (char_of (a mod 4 * 16 + b / 16))
        (String (char_of (b mod 16 * 4)) (String pad EmptyString)))
  | a :: b :: c :: rest =>
      let a := of_byte a in
      let b := of_byte b in
      let c := of_byte c in
      String (char_of (a / 4)) (String (char_of (a mod 4 * 16 + b / 16))
        (String (char_of (b mod 16 * 4 + c / 64)) (String (char_of (c mod 64))
          (encode rest))))
  end.

(** The six-bit values the decoder reads: characters outside the alphabet
    are skipped, the first ['='] ends the input. *)
Fixpoint sextets (s : string) : list N :=
  match s with
  | EmptyString => []
  | String c r =>
      if Ascii.eqb c pad then []
      else match value_of c with
           | Some v => v :: sextets r
           | None => sextets r
           end
  end.

Fixpoint bytes_of_sextets (l : list N) : list byte :=
  match l with
  | a :: b :: c :: d :: r =>
      byte_of (a * 4 + b / 16) :: byte_of (b mod 16 * 16 + c / 4)
        :: byte_of (c mod 4 * 64 + d) :: bytes_of_sextets r
  | [a; b; c] => [byte_of (a * 4 + b / 16); byte_of (b mod 16 * 16 + c / 4)]
  | [a; b] => [byte_of (a * 4 + b / 16)]
  | _ => []
  end.

(** [Buffer.from(s, "base64")] *)
Definition decode (s : string) : list byte := bytes_of_sextets (sextets s).

End Base64.

(** ** Data model ([src/types.ts]) *)

(** [string | Buffer] *)
Inductive Content : Type :=
| Str (s : string)
| Buf (b : list byte).

Record Attachment : Type := {
  filename : option string;
  filepath : string;
  contentType : option string;
  content : option Content;
}.

(** [string | string[]] *)
Inductive Addresses : Type :=
| One (address : string)
| Many (list_ : list string).

(** [react] has type [any]; the embedding takes the template values to be
    objects of a type [Template] (so a template that is set is truthy). *)
Record EmailOptions {Template : Type} : Type := {
  from : string;
  name : option string;
  to : Addresses;
  subject : string;
  html : option string;
  text : option string;
  react : option Template;
  attachments : option (list Attachment);
  replyTo : option string;
  tags : option (gmap string string);
  headers : option (gmap string string);
  cc : option Addresses;
}.
Arguments EmailOptions : clear implicits.

(** Assignments to and deletion of properties. *)
Definition set_content (c : Content) (e : Attachment) : Attachment :=
  {| filename := filename e; filepath := filepath e;
     contentType := contentType e; content := Some c |}.

Definition set_filename (f : string) (e : Attachment) : Attachment :=
  {| filename := Some f; filepath := filepath e;
     contentType := contentType e; content := content e |}.

Definition set_contentType (t : string) (e : Attachment) : Attachment :=
  {| filename := filename e; filepath := filepath e;
     contentType := Some t; content := content e |}.

Definition delete_headers {T} (o : EmailOptions T) : EmailOptions T :=
  {| from := from o; name := name o; to := to o; subject := subject o;
     html := html o; text := text o; react := react o;
     attachments := attachments o; replyTo := replyTo o; tags := tags o;
     headers := None; cc := cc o |}.

Definition set_html {T} (h : string) (o : EmailOptions T) : EmailOptions T :=
  {| from := from o; name := name o; to := to o; subject := subject o;
     html := Some h; text := text o; react := react o;
     attachments := attachments o; replyTo := replyTo o; tags := tags o;
     headers := headers o; cc := cc o |}.

Definition set_attachments {T} (l : list Attachment) (o : EmailOptions T)
  : EmailOptions T :=
  {| from := from o; name := name o; to := to o; subject := subject o;
     html := html o; text := text o; react := react o;
     attachments := Some l; replyTo := replyTo o; tags := tags o;
     headers := headers o; cc := cc o |}.

(** Truthiness of [attachment.content]: [undefined] and the empty string are
    falsy, a [Buffer] is an object and truthy whatever it holds. *)
Definition content_truthy (c : option Content) : option Content :=
  match c with
  | Some (Str s) => if Js.truthy s then c else None
  | Some (Buf _) => c
  | None => None
  end.

(** ** The platform: requests, responses, messages, errors, events *)

Record exn : Type := Error { message : string }.

Module RequestInit.
Record t : Type := {
  method : string;
  headers : gmap string string;
  body : string;
}.
End RequestInit.

(** A response of [fetch]: [response.ok], and what [response.json()] and
    [response.text()] settle to. *)
Record Response : Type := {
  ok : bool;
  json_body : exn + json;
  text_body : exn + string;
}.

(** The options [nodemailer.createTransport] receives. *)
Record Transport : Type := {
  host : string;
  port : Z;
  secure : bool;
  user : string;
  pass : string;
  rejectUnauthorized : bool;
}.

Module Mail.
Record attachment : Type := {
  filename : string;
  content : list byte;
  contentType : string;
}.
Record t : Type := {
  from : string;
  to : string;
  cc : option string;
  subject : string;
  html : option string;
  text : option string;
  replyTo : option string;
  attachments : list attachment;
  headers : gmap string string;
}.
End Mail.

(** An argument of [console.log] or [console.error]. *)
Inductive value : Type :=
| VStr (s : string)
| VJson (j : json)
| VExn (e : exn).

Inductive event : Type :=
| Render
| ReadFile (path : string)
| ConsoleLog (args : list value)
| ConsoleError (args : list value)
| Fetch (url : string) (init : RequestInit.t)
| SendMail (transport : Transport) (mail : Mail.t)
| Verify (transport : Transport).

Class Collaborators (Template : Type) : Type := {
  (** [render] / [renderAsync] of [@react-email/render] *)
  render : Template -> exn + string;
  (** what [JSON.stringify] makes of a template value held in a property;
      [None] when the property is left out *)
  template_json : Template -> option json;
  (** [fs.promises.readFile] *)
  readFile : string -> exn + list byte;
  (** [mime.lookup]: a MIME type or [false] *)
  mime_lookup : string -> option string;
  (** [process.env] *)
  env : string -> option string;
  fetch : string -> RequestInit.t -> exn + Response;
  (** [transporter.sendMail] and [transporter.verify] *)
  sendMail : Transport -> Mail.t -> exn + unit;
  verify : Transport -> exn + unit;
}.

(** ** Computations: a trace of events and an outcome

    An [async] function that returns [Promise<A>] is a computation [M A]: it
    extends the trace of the calls made so far and settles to a value (the
    promise is fulfilled) or to an exception (it is rejected). *)

Definition M (A : Type) : Type := list event -> (exn + A) * list event.

Definition ret {A} (a : A) : M A := fun tr => (inr a, tr).

Definition throw {A} (e : exn) : M A := fun tr => (inl e, tr).

Definition bind {A B} (m : M A) (k : A -> M B) : M B :=
  fun tr =>
    match m tr with
    | (inr a, tr') => k a tr'
    | (inl e, tr') => (inl e, tr')
    end.

Definition emit (ev : event) : M unit := fun tr => (inr tt, tr ++ [ev]).

Definition lift {A} (r : exn + A) : M A := fun tr => (r, tr).

(** [try { m } catch (error) { handler error }] *)
Definition try_catch {A} (m : M A) (handler : exn -> M A) : M A :=
  fun tr =>
    match m tr with
    | (inr a, tr') => (inr a, tr')
    | (inl e, tr') => handler e tr'
    end.

(** The promise of [m], observed without awaiting it: its outcome as a value. *)
Definition settled {A} (m : M A) : M (exn + A) :=
  fun tr => let '(r, tr') := m tr in (inr r, tr').

Notation "x <- m ;; k" := (bind m (fun x => k))
  (at level 100, m at next level, right associativity).
Notation "m ;;; k" := (bind m (fun _ => k))
  (at level 100, right associativity).

Fixpoint forEach {A B} (f : A -> M B) (l : list A) : M (list B) :=
  match l with
  | [] => ret []
  | a :: r => b <- f a ;; bs <- forEach f r ;; ret (b :: bs)
  end.

(** [Promise.all] on promises that have settled: the list of the values when
    all are fulfilled, a rejection when one is rejected.  JavaScript rejects
    with the rejection that comes first in time; the embedding has no clock
    and takes the first in the list. *)
Fixpoint Promise_all {A} (results : list (exn + A)) : exn + list A :=
  match results with
  | [] => inr []
  | inl e :: _ => inl e
  | inr v :: rest =>
      match Promise_all rest with
      | inl e => inl e
      | inr vs => inr (v :: vs)
      end
  end.

(** ** What [JSON.stringify(options)] serializes

    Properties are written in the order of the interface declaration (the
    order of a caller's object literal is not tracked); a property whose
    value is [undefined] is left out. *)

Definition json_of_addresses (a : Addresses) : json :=
  match a with
  | One s => JStr s
  | Many l => JArr (map JStr l)
  end.

Definition json_of_record (m : gmap string string) : json :=
  JObj (map (fun kv => (fst kv, JStr (snd kv))) (map_to_list m)).

(** A [Buffer] serializes through its [toJSON]. *)
Definition json_of_content (c : Content) : json :=
  match c with
  | Str s => JStr s
  | Buf b =>
      JObj [("type", JStr "Buffer");
            ("data", JArr (map (fun x => JNum (Z.of_N (Base64.of_byte x))) b))]
  end.

Definition json_of_attachment (e : Attachment) : json :=
  JSON.object
    [("filename", JStr <$> filename e);
     ("filepath", Some (JStr (filepath e)));
     ("contentType", JStr <$> contentType e);
     ("content", json_of_content <$> content e)].

Section Dispatch.

Context {Template : Type} `{!Collaborators Template}.

Definition json_of_options (o : EmailOptions Template) : json :=
  JSON.object
    [("from", Some (JStr (from o)));
     ("name", JStr <$> name o);
     ("to", Some (json_of_addresses (to o)));
     ("subject", Some (JStr (subject o)));
     ("html", JStr <$> html o);
     ("text", JStr <$> text o);
     ("react", react o ≫= template_json);
     ("attachments", (fun l => JArr (map json_of_attachment l)) <$> attachments o);
     ("replyTo", JStr <$> replyTo o);
     ("tags", json_of_record <$> tags o);
     ("headers", json_of_record <$> headers o);
     ("cc", json_of_addresses <$> cc o)].

(** ** The HTTP dispatcher: what both revisions of [src/index.ts] share *)

Record Shoutbox : Type := { apiKey : string }.

(** [string | null | undefined], the argument of the constructor. *)
Inductive Credential : Type :=
| Undefined
| Null
| Given (key : string).

Definition required : exn := Error "API key is required for Shoutbox".

(** [[
    let extraHeaders = {};
    if (options.headers) {
      Object.entries(options.headers).forEach(
        ([key, value]) => extraHeaders[key] = value);
      delete options.headers;
    }
    ]]
    The extra headers and the options as they are afterwards. *)
Definition extractHeaders (options : EmailOptions Template)
  : gmap string string * EmailOptions Template :=
  match headers options with
  | Some h =>
      (map_fold (fun key value (extraHeaders : gmap string string) =>
                   <[key := value]> extraHeaders) ∅ h,
       delete_headers options)
  | None => (∅, options)
  end.

(** The body of [for (const e of options.attachments || [])]. *)
Definition handleAttachment (e : Attachment) : M Attachment :=
  e <- match content_truthy (content e) with
       | Some _ => ret e
       | None =>
           emit (ReadFile (filepath e)) ;;;
           b <- lift (readFile (filepath e)) ;;
           ret (set_content (Buf b) e)
       end ;;
  let e := match Js.truthy_opt (filename e) with
           | Some _ => e
           | None => set_filename (basename (filepath e)) e
           end in
  let e := match Js.truthy_opt (contentType e) with
           | Some _ => e
           | None =>
               set_contentType
                 (default "application/octet-stream"
                    (Js.truthy_opt (mime_lookup (default EmptyString (filename e)))))
                 e
           end in
  let e := match content e with
           | Some (Buf b) => set_content (Str (Base64.encode b)) e
           | _ => e
           end in
  ret e.

Definition handleAttachments (options : EmailOptions Template)
  : M (EmailOptions Template) :=
  match attachments options with
  | Some l => l' <- forEach handleAttachment l ;; ret (set_attachments l' options)
  | None => ret options
  end.

Definition too_large (emailContent : string) : exn :=
  Error ("Body too large, expect 1MB, " +:+ pretty (Js.length emailContent)
           +:+ " bytes given").

(** [if (emailContent.length > 1024 * 1024) throw new Error(...)] *)
Definition checkSize (emailContent : string) : M unit :=
  if (Js.length emailContent >? 1024 * 1024)%Z
  then throw (too_large emailContent)
  else ret tt.

(** The object literal [{ Authorization: ..., "Content-Type": ..., ...extraHeaders }]:
    a later property replaces an earlier one of the same name. *)
Definition requestHeaders (self : Shoutbox) (extraHeaders : gmap string string)
  : gmap string string :=
  extraHeaders ∪ <["Content-Type" := "application/json"]>
                   (<["Authorization" := "Bearer " +:+ apiKey self]> ∅).

Definition requestInit (self : Shoutbox) (extraHeaders : gmap string string)
    (emailContent : string) : RequestInit.t :=
  {| RequestInit.method := "POST";
     RequestInit.headers := requestHeaders self extraHeaders;
     RequestInit.body := emailContent |}.

(** The [try { ... } catch (error) { ... }] block that ends [send]. *)
Definition post (endpoint : string) (self : Shoutbox)
    (extraHeaders : gmap string string) (emailContent : string) : M unit :=
  let init := requestInit self extraHeaders emailContent in
  try_catch
    (emit (Fetch endpoint init) ;;;
     response <- lift (fetch endpoint init) ;;
     if ok response
     then j <- lift (json_body response) ;;
          emit (ConsoleLog [VStr "Email sent successfully:"; VJson j])
     else t <- lift (text_body response) ;;
          emit (ConsoleError [VStr "Failed to send email:"; VStr t]))
    (fun error =>
       emit (ConsoleError [VStr "Error during fetch operation:"; VExn error]) ;;;
       throw error).

End Dispatch.

(** ** [src/index.ts] *)

Module Index.
Section Index.

Context {Template : Type} `{!Collaborators Template}.

Definition API_ENDPOINT : string := "https://api.shoutbox.net/send".

(** [[
    this.apiKey = apiKey || process.env.SHOUTBOX_API_KEY!;
    if (!this.apiKey) throw new Error("API key is required for Shoutbox");
    ]] *)
Definition new (apiKey : Credential) : exn + Shoutbox :=
  let given := match apiKey with Given k => Some k | _ => None end in
  match Js.truthy_opt (Js.or_else given (env "SHOUTBOX_API_KEY")) with
  | Some k => inr {| apiKey := k |}
  | None => inl required
  end.

Definition send (self : Shoutbox) (options : EmailOptions Template) : M unit :=
  let '(extraHeaders, options) := extractHeaders options in
  options <- handleAttachments options ;;
  let emailContent := JSON.stringify (json_of_options options) in
  checkSize emailContent ;;;
  emit (ConsoleLog [VStr emailContent]) ;;;
  post API_ENDPOINT self extraHeaders emailContent.

Definition sendEmail (self : Shoutbox) (options : EmailOptions Template) : M unit :=
  send self options.

(** [Promise.all(options.map((option) => this.send(option)))].  The sends
    are all started; the embedding runs them one after the other. *)
Definition sendEmails (self : Shoutbox) (options : list (EmailOptions Template))
  : M (list unit) :=
  results <- forEach (fun option => settled (send self option)) options ;;
  lift (Promise_all results).

End Index.
End Index.

(** ** The revision of [src/index.ts] that renders React templates *)

Module IndexReact.
Section IndexReact.

Context {Template : Type} `{!Collaborators Template}.

(** [process.env.SHOUTBOX_API_ENDPOINT ?? "https://api.shoutbox.net/send"] *)
Definition API_ENDPOINT : string :=
  default "https://api.shoutbox.net/send" (env "SHOUTBOX_API_ENDPOINT").

(** [[
    const key = apiKey === undefined ? process.env.SHOUTBOX_API_KEY : apiKey;
    if (!key || (typeof key === "string" && key.trim() === ""))
      throw new Error("API key is required for Shoutbox");
    this.apiKey = key;
    ]] *)
Definition new (apiKey : Credential) : exn + Shoutbox :=
  let key := match apiKey with
             | Undefined => env "SHOUTBOX_API_KEY"
             | Null => None
             | Given k => Some k
             end in
  match Js.truthy_opt key with
  | Some k =>
      if Js.truthy (Js.trim k) then inr {| apiKey := k |} else inl required
  | None => inl required
  end.

(** [.replace(/\$<|>\$\//g, "<")] *)
Fixpoint replace_markers (s : string) : string :=
  match s with
  | EmptyString => EmptyString
  | String c r =>
      if Js.starts_with "$<" s
      then match r with
           | String _ r' => String Js.lt (replace_markers r')
           | EmptyString => s
           end
      else if Js.starts_with ">$/" s
      then match r with
           | String _ (String _ r') => String Js.lt (replace_markers r')
           | _ => s
           end
      else String c (replace_markers r)
  end.

(** [.replace(/\$|\/\$/g, "")] *)
Fixpoint remove_markers (s : string) : string :=
  match s with
  | EmptyString => EmptyString
  | String c r =>
      if Ascii.eqb c Js.dollar then remove_markers r
      else if Js.starts_with "/$" s
      then match r with
           | String _ r' => remove_markers r'
           | EmptyString => s
           end
      else String c (remove_markers r)
  end.

(** [[
    return html
      .replace(/<!DOCTYPE[^>]*>/i, "")
      .replace(/<\/?html[^>]*>/gi, "")
      .replace(/\$<|>\$\//g, "<")
      .replace(/\$|\/\$/g, "")
      .trim();
    ]] *)
Definition cleanRenderedHtml (html : string) : string :=
  let html := Js.remove_first_tag (Js.starts_with_ci "<!DOCTYPE") html in
  let html := Js.remove_tags
                (fun s => Js.starts_with_ci "<html" s || Js.starts_with_ci "</html" s)
                html in
  let html := replace_markers html in
  let html := remove_markers html in
  Js.trim html.

(** [[
    if (options.react) {
      const renderedHtml = await render(options.react);
      options.html = this.cleanRenderedHtml(renderedHtml);
    }
    ]] *)
Definition renderReact (options : EmailOptions Template) : M (EmailOptions Template) :=
  match react options with
  | Some template =>
      emit Render ;;;
      renderedHtml <- lift (render template) ;;
      ret (set_html (cleanRenderedHtml renderedHtml) options)
  | None => ret options
  end.

Definition send (self : Shoutbox) (options : EmailOptions Template) : M unit :=
  let '(extraHeaders, options) := extractHeaders options in
  options <- renderReact options ;;
  options <- handleAttachments options ;;
  let emailContent := JSON.stringify (json_of_options options) in
  checkSize emailContent ;;;
  post API_ENDPOINT self extraHeaders emailContent.

Definition sendEmail (self : Shoutbox) (options : EmailOptions Template) : M unit :=
  send self options.

Definition sendEmails (self : Shoutbox) (options : list (EmailOptions Template))
  : M (list unit) :=
  results <- forEach (fun option => settled (send self option)) options ;;
  lift (Promise_all results).

End IndexReact.
End IndexReact.

(** ** [src/smtp.ts] *)

Module Smtp.
Section Smtp.

Context {Template : Type} `{!Collaborators Template}.

Record SMTPClient : Type := { transporter : Transport }.

(** The constructor hands the options to [nodemailer.createTransport]; no
    connection is opened and nothing is checked. *)
Definition new (apiKey : string) : exn + SMTPClient :=
  inr {| transporter :=
           {| host := "mail.shoutbox.net";
              port := 587;
              secure := false;
              user := "shoutbox";
              pass := apiKey;
              rejectUnauthorized := true |} |}.

(** [html.replace(/<[^>]*>/g, '')] *)
Definition stripHtml (html : string) : string :=
  Js.remove_tags (Js.starts_with "<") html.

(** [if (options.react) options.html = await renderAsync(options.react);] *)
Definition renderReact (options : EmailOptions Template) : M (EmailOptions Template) :=
  match react options with
  | Some template =>
      emit Render ;;;
      renderedHtml <- lift (render template) ;;
      ret (set_html renderedHtml options)
  | None => ret options
  end.

(** The body of [for (const attachment of options.attachments || [])]. *)
Definition processAttachment (attachment : Attachment) : M Mail.attachment :=
  content <- match content_truthy (content attachment) with
             | Some c => ret c
             | None =>
                 emit (ReadFile (filepath attachment)) ;;;
                 b <- lift (readFile (filepath attachment)) ;;
                 ret (Buf b)
             end ;;
  let filename :=
    default (basename (filepath attachment)) (Js.truthy_opt (filename attachment)) in
  let contentType :=
    default "application/octet-stream"
      (Js.truthy_opt
         (Js.or_else (contentType attachment) (mime_lookup filename))) in
  ret {| Mail.filename := filename;
         Mail.content := match content with
                         | Str s => Base64.decode s
                         | Buf b => b
                         end;
         Mail.contentType := contentType |}.

Definition join_addresses (a : Addresses) : string :=
  match a with
  | One s => s
  | Many l => Js.join ", " l
  end.

(** An array is truthy, a string is truthy unless empty. *)
Definition addresses_truthy (a : option Addresses) : option Addresses :=
  match a with
  | Some (One s) => if Js.truthy s then a else None
  | Some (Many _) => a
  | None => None
  end.

Definition mailOptions (options : EmailOptions Template)
    (attachments : list Mail.attachment) : Mail.t :=
  {| Mail.from := match Js.truthy_opt (name options) with
                  | Some n => n +:+ " <" +:+ from options +:+ ">"
                  | None => from options
                  end;
     Mail.to := join_addresses (to options);
     Mail.cc := join_addresses <$> addresses_truthy (cc options);
     Mail.subject := subject options;
     Mail.html := html options;
     Mail.text := Js.or_else (text options)
                    (stripHtml <$> Js.truthy_opt (html options));
     Mail.replyTo := replyTo options;
     Mail.attachments := attachments;
     Mail.headers := default ∅ (headers options) |}.

Definition sendEmail (self : SMTPClient) (options : EmailOptions Template) : M unit :=
  try_catch
    (options <- renderReact options ;;
     attachments <- forEach processAttachment (default [] (attachments options)) ;;
     let mail := mailOptions options attachments in
     emit (SendMail (transporter self) mail) ;;;
     lift (sendMail (transporter self) mail))
    (fun error =>
       emit (ConsoleError [VStr "SMTP Error:"; VExn error]) ;;;
       throw error).

Definition sendEmails (self : SMTPClient) (options : list (EmailOptions Template))
  : M (list unit) :=
  results <- forEach (fun option => settled (sendEmail self option)) options ;;
  lift (Promise_all results).

Definition verifyConnection (self : SMTPClient) : M bool :=
  try_catch
    (emit (Verify (transporter self)) ;;;
     lift (verify (transporter self)) ;;;
     ret true)
    (fun error =>
       emit (ConsoleError [VStr "SMTP Connection Error:"; VExn error]) ;;;
       ret false).

End Smtp.
End Smtp.

(** * Properties

    ** Vocabulary *)

Local Close Scope N_scope.

Definition outcome {A} (m : M A) : exn + A := fst (m []).
Definition effects {A} (m : M A) : list event := snd (m []).

(** A computation only ever appends to the trace, and what it appends and
    settles to does not depend on the trace it starts from. *)
Definition Writer {A} (m : M A) : Prop :=
  forall tr, m tr = (outcome m, tr ++ effects m).

(** An event that is neither a network call nor an SMTP submission. *)
Definition quiet (ev : event) : Prop :=
  match ev with
  | Fetch _ _ | SendMail _ _ => False
  | _ => True
  end.

(** A computation that adds only events satisfying [P]. *)
Definition Emits {A} (P : event -> Prop) (m : M A) : Prop :=
  forall tr, Forall P tr -> Forall P (snd (m tr)).

(** Fan-out and fan-in, the body of every [sendEmails]. *)
Definition sendMany {A B} (f : A -> M B) (l : list A) : M (list B) :=
  results <- forEach (fun a => settled (f a)) l ;; lift (Promise_all results).

(** The aggregation of [Promise.all] over sends that return nothing: every
    send takes place; the aggregate is fulfilled, with one value per
    element, exactly when every send is; when it is rejected its error is
    that of a rejected send, and it is rejected as soon as one send is. *)
Definition all_or_nothing {A} (send : A -> M unit) (sendAll : M (list unit))
    (l : list A) : Prop :=
  (forall a ev, a ∈ l -> ev ∈ effects (send a) -> ev ∈ effects sendAll)
  /\ (forall vs, outcome sendAll = inr vs <->
        Forall (fun a => outcome (send a) = inr tt) l /\ length vs = length l)
  /\ (forall e, outcome sendAll = inl e ->
        exists a, a ∈ l /\ outcome (send a) = inl e)
  /\ (Exists (fun a => exists e, outcome (send a) = inl e) l ->
        exists e, outcome sendAll = inl e).

(** A credential that is absent or the empty string. *)
Definition missing (apiKey : Credential) : Prop :=
  apiKey = Undefined \/ apiKey = Null \/ apiKey = Given EmptyString.

(** The specification's words for the text fallback: every substring from a
    ['<'] through the next ['>'] is removed; a ['<'] that no ['>'] follows
    stays. *)
Inductive Stripped : string -> string -> Prop :=
| Stripped_end : Stripped EmptyString EmptyString
| Stripped_char c s t :
    c <> Js.lt -> Stripped s t -> Stripped (String c s) (String c t)
| Stripped_tag s rest t :
    Js.after_gt s = Some rest -> Stripped rest t -> Stripped (String Js.lt s) t
| Stripped_open s t :
    Js.after_gt s = None -> Stripped s t -> Stripped (String Js.lt s) (String Js.lt t).

(** The content of an attachment as the HTTP body carries it, and as the
    SMTP message does. *)
Definition http_payload (c : Content) : string :=
  match c with
  | Str s => s
  | Buf b => Base64.encode b
  end.


Section Vocabulary.

Context {Template : Type} `{!Collaborators Template}.

(** The shape both revisions of [send] have: extract the headers, normalize,
    serialize, check the size, optionally echo the body, post. *)
Definition dispatch (endpoint : string)
    (normalize : EmailOptions Template -> M (EmailOptions Template))
    (echo : string -> M unit) (self : Shoutbox) (options : EmailOptions Template)
  : M unit :=
  let '(extraHeaders, options) := extractHeaders options in
  options <- normalize options ;;
  let emailContent := JSON.stringify (json_of_options options) in
  checkSize emailContent ;;;
  echo emailContent ;;;
  post endpoint self extraHeaders emailContent.

Definition normalize_react (o : EmailOptions Template) : M (EmailOptions Template) :=
  o <- IndexReact.renderReact o ;; handleAttachments o.

Definition echo_body (c : string) : M unit := emit (ConsoleLog [VStr c]).
Definition echo_nothing (c : string) : M unit := ret tt.


(** The file name and the content type normalization settles on. *)
Definition resolved_name (e : Attachment) : string :=
  default (basename (filepath e)) (Js.truthy_opt (filename e)).

Definition resolved_type (e : Attachment) : string :=
  default "application/octet-stream"
    (Js.truthy_opt (Js.or_else (contentType e) (mime_lookup (resolved_name e)))).

(** The part of the body of the attachment loop of [send] that follows the
    read. *)
Definition finish (e : Attachment) : Attachment :=
  let e := match Js.truthy_opt (filename e) with
           | Some _ => e
           | None => set_filename (basename (filepath e)) e
           end in
  let e := match Js.truthy_opt (contentType e) with
           | Some _ => e
           | None =>
               set_contentType
                 (default "application/octet-stream"
                    (Js.truthy_opt (mime_lookup (default EmptyString (filename e)))))
                 e
           end in
  match content e with
  | Some (Buf b) => set_content (Str (Base64.encode b)) e
  | _ => e
  end.

(** What normalization makes of attachment [e]: [e'] on the HTTP path. *)
Definition normalized (e e' : Attachment) : Prop :=
  filename e' = Some (resolved_name e)
  /\ contentType e' = Some (resolved_type e)
  /\ (exists s, content e' = Some (Str s))
  /\ filepath e' = filepath e.

End Vocabulary.

(** ** Vocabulary of the further properties *)

Section FurtherVocabulary.

Context {Template : Type} `{!Collaborators Template}.

(** The requests, the submissions and the error reports of a trace. *)
Definition requests (tr : list event) : list (string * RequestInit.t) :=
  omap (fun ev => match ev with Fetch url init => Some (url, init) | _ => None end) tr.

Definition submissions (tr : list event) : list (Transport * Mail.t) :=
  omap (fun ev => match ev with SendMail t mail => Some (t, mail) | _ => None end) tr.

Definition error_reports (tr : list event) : list (list value) :=
  omap (fun ev => match ev with ConsoleError args => Some args | _ => None end) tr.

(** An event of the normalization: a template is rendered or a file read. *)
Definition reading (ev : event) : Prop :=
  match ev with
  | Render | ReadFile _ => True
  | _ => False
  end.

(** An event that stays on the machine and reports no error. *)
Definition harmless (ev : event) : Prop :=
  match ev with
  | Render | ReadFile _ | ConsoleLog _ => True
  | _ => False
  end.


(** [console.error('SMTP Error:', error)] *)
Definition smtp_error (e : exn) : event := ConsoleError [VStr "SMTP Error:"; VExn e].

(** How the [try] block of [send] settles, and what it reports last, given
    what [fetch] settles to. *)
Inductive settles : exn + Response -> exn + unit -> event -> Prop :=
| settles_unreachable e :
    settles (inl e) (inl e)
      (ConsoleError [VStr "Error during fetch operation:"; VExn e])
| settles_accepted r j :
    ok r = true -> json_body r = inr j ->
    settles (inr r) (inr tt) (ConsoleLog [VStr "Email sent successfully:"; VJson j])
| settles_unparsed r e :
    ok r = true -> json_body r = inl e ->
    settles (inr r) (inl e)
      (ConsoleError [VStr "Error during fetch operation:"; VExn e])
| settles_refused r t :
    ok r = false -> text_body r = inr t ->
    settles (inr r) (inr tt) (ConsoleError [VStr "Failed to send email:"; VStr t])
| settles_unread r e :
    ok r = false -> text_body r = inl e ->
    settles (inr r) (inl e)
      (ConsoleError [VStr "Error during fetch operation:"; VExn e]).

(** The ways a send ends: before the request, with the error of the
    normalization or of the size check and a trace of reads only; or after
    one request, as the [try] block settles. *)
Definition ends (endpoint : string)
    (normalize : EmailOptions Template -> M (EmailOptions Template))
    (echo : string -> M unit) (self : Shoutbox) (options : EmailOptions Template)
    (run : M unit) : Prop :=
  let o1 := snd (extractHeaders options) in
  (exists e,
     outcome run = inl e
     /\ effects run = effects (normalize o1)
     /\ (outcome (normalize o1) = inl e
         \/ exists o2, outcome (normalize o1) = inr o2
              /\ (Js.length (JSON.stringify (json_of_options o2)) > 1024 * 1024)%Z
              /\ e = too_large (JSON.stringify (json_of_options o2))))
  \/ (exists o2 r ev,
        outcome (normalize o1) = inr o2
        /\ (Js.length (JSON.stringify (json_of_options o2)) <= 1024 * 1024)%Z
        /\ outcome run = r
        /\ effects run
           = (effects (normalize o1) ++ effects (echo (JSON.stringify (json_of_options o2))))
               ++ [Fetch endpoint
                     (requestInit self (fst (extractHeaders options))
                        (JSON.stringify (json_of_options o2))); ev]
        /\ settles (fetch endpoint
                      (requestInit self (fst (extractHeaders options))
                         (JSON.stringify (json_of_options o2)))) r ev).

(** A send made at most one request, by POST to [endpoint], and a fulfilled
    send exactly one; a rejected send either made none and reported
    nothing, or made one and reported, once, the error it is rejected
    with. *)
Definition requests_once (endpoint : string) (run : M unit) : Prop :=
  match outcome run with
  | inr _ =>
      exists init, requests (effects run) = [(endpoint, init)]
                   /\ RequestInit.method init = "POST"
  | inl e =>
      (requests (effects run) = [] /\ error_reports (effects run) = [])
      \/ (exists init,
            requests (effects run) = [(endpoint, init)]
            /\ RequestInit.method init = "POST"
            /\ error_reports (effects run)
               = [[VStr "Error during fetch operation:"; VExn e]])
  end.

(** The send [run] is rejected with [e], and its last word is the report
    of [e] by the [catch] block. *)
Definition rejected_and_reported (run : M unit) (e : exn) : Prop :=
  outcome run = inl e
  /\ last (effects run)
     = Some (ConsoleError [VStr "Error during fetch operation:"; VExn e]).

(** What the answer to the request [url], [init] makes of the send [run]:
    a failure of [fetch], or of reading the body of the response, rejects
    the send with that error; an accepted request whose body is JSON
    fulfils it. *)
Definition response_decides (run : M unit) (url : string) (init : RequestInit.t)
  : Prop :=
  (forall e, fetch url init = inl e -> rejected_and_reported run e)
  /\ (forall r e, fetch url init = inr r -> ok r = true -> json_body r = inl e ->
        rejected_and_reported run e)
  /\ (forall r e, fetch url init = inr r -> ok r = false -> text_body r = inl e ->
        rejected_and_reported run e)
  /\ (forall r j, fetch url init = inr r -> ok r = true -> json_body r = inr j ->
        outcome run = inr tt
        /\ last (effects run)
           = Some (ConsoleLog [VStr "Email sent successfully:"; VJson j])).

(** The options [o2] hold what the caller's options [o] held, apart from
    the headers, the [html] and what the attachments became. *)
Definition same_envelope (o o2 : EmailOptions Template) : Prop :=
  from o2 = from o /\ name o2 = name o /\ to o2 = to o /\ subject o2 = subject o
  /\ text o2 = text o /\ react o2 = react o /\ replyTo o2 = replyTo o
  /\ tags o2 = tags o /\ cc o2 = cc o
  /\ length <$> attachments o2 = length <$> attachments o.

(** The file the attachment loop reads for [e]: its [filepath] when the
    content is absent or the empty string, none otherwise. *)
Definition file_needed (e : Attachment) : option string :=
  match content_truthy (content e) with
  | Some _ => None
  | None => Some (filepath e)
  end.

Definition files_needed (l : list Attachment) : list string := omap file_needed l.

(** The attachment loop [run] over [l] reads the files needed, in the order
    of the list, and stops at the first that cannot be read: it is
    fulfilled exactly when every file needed can be read, and it is
    rejected with the error of the last file it read. *)
Definition reads_in_order {B} (run : M (list B)) (l : list Attachment) : Prop :=
  effects run `prefix_of` (ReadFile <$> files_needed l)
  /\ ((exists bs, outcome run = inr bs) <->
      Forall (fun p => exists b, readFile p = inr b) (files_needed l))
  /\ ((exists bs, outcome run = inr bs) -> effects run = ReadFile <$> files_needed l)
  /\ (forall e, outcome run = inl e ->
        exists p, last (effects run) = Some (ReadFile p) /\ readFile p = inl e).

(** One turn of the loop. *)
Definition reads_one {B} (m : M B) (e : Attachment) : Prop :=
  match file_needed e with
  | None => effects m = [] /\ exists b, outcome m = inr b
  | Some p =>
      effects m = [ReadFile p]
      /\ match readFile p with
         | inl err => outcome m = inl err
         | inr _ => exists b, outcome m = inr b
         end
  end.

(** A file among those the loop over [l] needs cannot be read. *)
Definition unreadable (l : list Attachment) : Prop :=
  Exists (fun p => exists e, readFile p = inl e) (files_needed l).

(** [e] is the error of reading a file the loop over [l] needs. *)
Definition read_error (l : list Attachment) (e : exn) : Prop :=
  exists p, p ∈ files_needed l /\ readFile p = inl e.

(** [e] is the error of rendering the template of [options]. *)
Definition render_error (options : EmailOptions Template) (e : exn) : Prop :=
  exists t, react options = Some t /\ render t = inl e.

(** A call of [sendEmail] submitted at most one message.  When it submitted
    one, it settles as [sendMail] does; when it submitted none, it is
    rejected.  Every rejection is reported once, last, whatever its cause,
    and nothing is reported otherwise.  No request is made. *)
Definition submits_once (self : Smtp.SMTPClient) (run : M unit) : Prop :=
  ((submissions (effects run) = [] /\ exists e, outcome run = inl e)
   \/ (exists mail,
         submissions (effects run) = [(Smtp.transporter self, mail)]
         /\ outcome run = sendMail (Smtp.transporter self) mail))
  /\ match outcome run with
     | inr _ =>
         error_reports (effects run) = []
         /\ exists mail, last (effects run) = Some (SendMail (Smtp.transporter self) mail)
     | inl e =>
         error_reports (effects run) = [[VStr "SMTP Error:"; VExn e]]
         /\ last (effects run) = Some (smtp_error e)
     end
  /\ requests (effects run) = [].


(** Some ['<'] of [s] is followed, sooner or later, by a ['>']: [s] holds
    what [/<[^>]*>/] matches. *)
Fixpoint has_tag (s : string) : bool :=
  match s with
  | EmptyString => false
  | String c r =>
      (Ascii.eqb c Js.lt && match Js.after_gt r with Some _ => true | None => false end)
      || has_tag r
  end.

(** [opens] holds of the text at some position of [s]. *)
Fixpoint occurs (opens : string -> bool) (s : string) : bool :=
  match s with
  | EmptyString => false
  | String _ r => opens s || occurs opens r
  end.

End FurtherVocabulary.

(** ** Sample platforms and messages *)

Definition accepted : Response :=
  {| ok := true;
     json_body := inr (JObj [("message", JStr "queued")]);
     text_body := inr "{}" |}.

Definition unauthorized : Response :=
  {| ok := false;
     json_body := inl (Error "Unexpected token U in JSON at position 0");
     text_body := inr "Unauthorized" |}.

(** A platform with no files, no MIME table and no environment variables,
    whose renderer gives [rendered] and whose service answers every request
    with [response]. *)
Definition platform (response : Response) (rendered : string) : Collaborators unit :=
  {| render := fun _ => inr rendered;
     template_json := fun _ => Some (JObj []);
     readFile := fun path =>
       inl (Error ("ENOENT: no such file or directory, open " +:+ path));
     mime_lookup := fun _ => None;
     env := fun _ => None;
     fetch := fun _ _ => inr response;
     sendMail := fun _ _ => inr tt;
     verify := fun _ => inr tt |}.

Definition key : Shoutbox := {| apiKey := "secret" |}.

Definition client : Smtp.SMTPClient :=
  {| Smtp.transporter :=
       {| host := "mail.shoutbox.net"; port := 587; secure := false;
          user := "shoutbox"; pass := "secret"; rejectUnauthorized := true |} |}.

Definition plain {Template : Type} (subject_ : string) (html_ : option string)
  : EmailOptions Template :=
  {| from := "no-reply@shoutbox.net"; name := None; to := One "test@example.com";
     subject := subject_; html := html_; text := None; react := None;
     attachments := None; replyTo := None; tags := None; headers := None;
     cc := None |}.

Definition with_attachment {Template : Type} (e : Attachment) : EmailOptions Template :=
  {| from := "no-reply@shoutbox.net"; name := None; to := One "test@example.com";
     subject := "Report"; html := Some "<p>See the attachment</p>"; text := None;
     react := None; attachments := Some [e]; replyTo := None; tags := None;
     headers := None; cc := None |}.



Definition rendered_page : string :=
  "<!DOCTYPE html PUBLIC><html lang=en><!--$--><p>Hi</p><!--/$--></html>".

Definition missing_file : Attachment :=
  {| filename := None; filepath := "./missing.txt"; contentType := None;
     content := None |}.


(** Content given in base64, with no file behind it. *)
Definition inline : Attachment :=
  {| filename := None; filepath := EmptyString; contentType := None;
     content := Some (Str "aGVsbG8=") |}.

Definition report : Attachment :=
  {| filename := None; filepath := "./examples/important.txt"; contentType := None;
     content := Some (Buf ["h"%byte; "i"%byte]) |}.

(** The code unit U+00E9 (e with acute accent): one code unit, two bytes. *)
Definition e_acute : ascii := "233"%char.

(** A message whose HTML is [n] times that letter. *)
Definition accented {Template : Type} (n : nat) : EmailOptions Template :=
  {| from := "no-reply@shoutbox.net"; name := None; to := One "test@example.com";
     subject := "Hi"; html := Some (Js.replicate n e_acute); text := None;
     react := None; attachments := None; replyTo := None; tags := None;
     headers := None; cc := None |}.

(** A deployment that sets the endpoint in the environment. *)
Definition staging : Collaborators unit :=
  {| render := fun _ => inr EmptyString;
     template_json := fun _ => Some (JObj []);
     readFile := fun path =>
       inl (Error ("ENOENT: no such file or directory, open " +:+ path));
     mime_lookup := fun _ => None;
     env := fun name =>
       if String.eqb name "SHOUTBOX_API_ENDPOINT"
       then Some "http://localhost:3000/send"
       else None;
     fetch := fun _ _ => inr accepted;
     sendMail := fun _ _ => inr tt;
     verify := fun _ => inr tt |}.

(** ** Small checks of the embedding *)

Example basename_examples :
  basename "./examples/important.txt" = "important.txt"
  /\ basename "a/b//" = "b"
  /\ basename "report.pdf" = "report.pdf"
  /\ basename "/" = EmptyString
  /\ basename EmptyString = EmptyString.
Proof. repeat split. Qed.

Example stripHtml_examples :
  Smtp.stripHtml "<h1>Hi</h1><p>Bye</p>" = "HiBye"
  /\ Smtp.stripHtml "a < b <x> c" = "a  c"
  /\ Smtp.stripHtml "1 < 2" = "1 < 2"
  /\ Smtp.stripHtml "<<b>>" = ">".
Proof. repeat split. Qed.

Example base64_examples :
  Base64.encode ["h"%byte; "e"%byte; "l"%byte; "l"%byte; "o"%byte] = "aGVsbG8="
  /\ Base64.decode "aGVsbG8=" = ["h"%byte; "e"%byte; "l"%byte; "l"%byte; "o"%byte]
  /\ Base64.decode "aGV sbG8" = ["h"%byte; "e"%byte; "l"%byte; "l"%byte; "o"%byte].
Proof. repeat split. Qed.

Example cleanRenderedHtml_example :
  IndexReact.cleanRenderedHtml rendered_page = "<!----><p>Hi</p><!---->".
Proof. vm_compute. reflexivity. Qed.

Example stringify_example :
  JSON.stringify
    (JSON.object [("a", Some (JArr [JNum 3; JNull; JBool true])); ("b", None)])
  = String "{" (String Js.dquote (String "a" (String Js.dquote ":[3,null,true]}"))).
Proof. vm_compute. reflexivity. Qed.

Example size_examples :
  Js.length (String e_acute "a") = 2%Z /\ Js.byteLength (String e_acute "a") = 3%Z.
Proof. split; reflexivity. Qed.

(** ** Computations *)

Lemma Writer_ret {A} (a : A) : Writer (ret a).
Proof. intros tr. unfold ret, outcome, effects. simpl. by rewrite app_nil_r. Qed.

Lemma Writer_throw {A} (e : exn) : Writer (@throw A e).
Proof. intros tr. unfold throw, outcome, effects. simpl. by rewrite app_nil_r. Qed.

Lemma Writer_lift {A} (r : exn + A) : Writer (lift r).
Proof. intros tr. unfold lift, outcome, effects. simpl. by rewrite app_nil_r. Qed.

Lemma Writer_emit (ev : event) : Writer (emit ev).
Proof. intros tr. reflexivity. Qed.

Lemma Writer_bind {A B} (m : M A) (k : A -> M B) :
  Writer m -> (forall a, Writer (k a)) -> Writer (bind m k).
Proof.
  intros Hm Hk tr. unfold outcome, effects, bind.
  rewrite (Hm tr), (Hm []). simpl.
  destruct (outcome m) as [e | a]; simpl; [done |].
  rewrite (Hk a (tr ++ effects m)), (Hk a (effects m)). simpl.
  by rewrite app_assoc.
Qed.

Lemma Writer_try_catch {A} (m : M A) (handler : exn -> M A) :
  Writer m -> (forall e, Writer (handler e)) -> Writer (try_catch m handler).
Proof.
  intros Hm Hh tr. unfold outcome, effects, try_catch.
  rewrite (Hm tr), (Hm []). simpl.
  destruct (outcome m) as [e | a]; simpl; [| done].
  rewrite (Hh e (tr ++ effects m)), (Hh e (effects m)). simpl.
  by rewrite app_assoc.
Qed.

Lemma Writer_settled {A} (m : M A) : Writer m -> Writer (settled m).
Proof.
  intros Hm tr. unfold outcome, effects, settled.
  rewrite (Hm tr), (Hm []). done.
Qed.

Lemma Writer_forEach {A B} (f : A -> M B) (l : list A) :
  (forall a, Writer (f a)) -> Writer (forEach f l).
Proof.
  intros Hf. induction l as [| a l IH]; simpl.
  - apply Writer_ret.
  - apply Writer_bind; [done |]. intros b.
    apply Writer_bind; [done |]. intros bs. apply Writer_ret.
Qed.

(** Running a computation from any trace, in terms of its outcome and effects. *)
Lemma run_bind {A B} (m : M A) (k : A -> M B) tr :
  Writer m ->
  bind m k tr =
    match outcome m with
    | inr a => k a (tr ++ effects m)
    | inl e => (inl e, tr ++ effects m)
    end.
Proof. intros Hm. unfold bind. rewrite (Hm tr). by destruct (outcome m). Qed.

Lemma Promise_all_fulfilled {A} (results : list (exn + A)) (vs : list A) :
  Promise_all results = inr vs <-> results = map inr vs.
Proof.
  revert vs. induction results as [| [e | v] rest IH]; intros vs; simpl.
  - split; [intros [= <-]; done | by destruct vs].
  - split; [done | by destruct vs].
  - destruct (Promise_all rest) as [e | vs'] eqn:Hrest.
    + split; [done |]. destruct vs as [| v' vs]; [done |]. intros [= -> Hr].
      apply IH in Hr. done.
    + split.
      * intros [= <-]. simpl. f_equal. by apply IH.
      * destruct vs as [| v' vs]; [done |]. intros [= -> Hr].
        apply IH in Hr. by injection Hr as ->.
Qed.

Lemma Promise_all_rejected {A} (results : list (exn + A)) (e : exn) :
  Promise_all results = inl e -> inl e ∈ results.
Proof.
  induction results as [| [e' | v] rest IH]; simpl; [done | |].
  - intros [= ->]. by left.
  - destruct (Promise_all rest); [| done]. intros [= ->]. right. by apply IH.
Qed.

Lemma Promise_all_length {A} (results : list (exn + A)) (vs : list A) :
  Promise_all results = inr vs -> length vs = length results.
Proof. intros H%Promise_all_fulfilled. subst. by rewrite length_map. Qed.

Lemma run_forEach_settled {A B} (f : A -> M B) (l : list A) tr :
  (forall a, Writer (f a)) ->
  forEach (fun a => settled (f a)) l tr =
    (inr (map (fun a => outcome (f a)) l),
     tr ++ flat_map (fun a => effects (f a)) l).
Proof.
  intros Hf. revert tr. induction l as [| a l IH]; intros tr; simpl.
  - unfold ret. by rewrite app_nil_r.
  - unfold bind at 1. unfold settled at 1. rewrite (Hf a tr).
    unfold bind. rewrite IH. unfold ret. by rewrite app_assoc.
Qed.

Lemma run_sendMany {A B} (f : A -> M B) (l : list A) tr :
  (forall a, Writer (f a)) ->
  sendMany f l tr =
    (Promise_all (map (fun a => outcome (f a)) l),
     tr ++ flat_map (fun a => effects (f a)) l).
Proof.
  intros Hf. unfold sendMany, bind. rewrite run_forEach_settled by done. done.
Qed.

(** Proves [Writer] of a computation built from the combinators. *)
Ltac writer :=
  repeat first
    [ progress intros
    | apply Writer_ret | apply Writer_throw | apply Writer_lift | apply Writer_emit
    | apply Writer_bind | apply Writer_try_catch | apply Writer_settled
    | apply Writer_forEach
    | match goal with
      | |- Writer (match ?x with _ => _ end) => destruct x
      end ].

Lemma Emits_ret {A} P (a : A) : Emits P (ret a).
Proof. by intros tr H. Qed.

Lemma Emits_throw {A} P (e : exn) : Emits P (@throw A e).
Proof. by intros tr H. Qed.

Lemma Emits_lift {A} P (r : exn + A) : Emits P (lift r).
Proof. by intros tr H. Qed.

Lemma Emits_emit (P : event -> Prop) ev : P ev -> Emits P (emit ev).
Proof.
  intros Hev tr H. unfold emit. simpl. apply Forall_app. split; [done |].
  by constructor.
Qed.

Lemma Emits_bind {A B} P (m : M A) (k : A -> M B) :
  Emits P m -> (forall a, Emits P (k a)) -> Emits P (bind m k).
Proof.
  intros Hm Hk tr H. unfold bind. specialize (Hm tr H).
  destruct (m tr) as [[e | a] tr']; simpl in *; [done |]. by apply Hk.
Qed.

Lemma Emits_forEach {A B} P (f : A -> M B) (l : list A) :
  (forall a, Emits P (f a)) -> Emits P (forEach f l).
Proof.
  intros Hf. induction l as [| a l IH]; simpl; [apply Emits_ret |].
  apply Emits_bind; [done |]. intros b.
  apply Emits_bind; [done |]. intros bs. apply Emits_ret.
Qed.

Lemma Emits_effects {A} P (m : M A) : Emits P m -> Forall P (effects m).
Proof. intros H. apply (H []). constructor. Qed.

(** Proves [Emits quiet] of a computation built from the combinators. *)
Ltac emits :=
  repeat first
    [ progress intros
    | apply Emits_ret | apply Emits_throw | apply Emits_lift
    | apply Emits_emit; exact I
    | apply Emits_bind | apply Emits_forEach
    | match goal with
      | |- Emits _ (match ?x with _ => _ end) => destruct x
      end ].

Lemma quiet_not_fetch tr url init : Forall quiet tr -> Fetch url init ∉ tr.
Proof. intros H Hin. rewrite Forall_forall in H. apply (H _ Hin). Qed.

Lemma quiet_not_mail tr t mail : Forall quiet tr -> SendMail t mail ∉ tr.
Proof. intros H Hin. rewrite Forall_forall in H. apply (H _ Hin). Qed.

Section DispatchFacts.

Context {Template : Type} `{!Collaborators Template}.

Lemma Writer_handleAttachment e : Writer (handleAttachment e).
Proof. unfold handleAttachment. writer. Qed.

Lemma Writer_handleAttachments o : Writer (handleAttachments o).
Proof. unfold handleAttachments. writer. Qed.

Lemma Writer_checkSize c : Writer (checkSize c).
Proof. unfold checkSize. writer. Qed.

Lemma Writer_post endpoint self extraHeaders c :
  Writer (post endpoint self extraHeaders c).
Proof. unfold post. writer. Qed.

Lemma Writer_Index_send self o : Writer (Index.send self o).
Proof.
  unfold Index.send. writer;
    auto using Writer_handleAttachments, Writer_checkSize, Writer_post.
Qed.

Lemma Writer_renderReact o : Writer (IndexReact.renderReact o).
Proof. unfold IndexReact.renderReact. writer. Qed.

Lemma Writer_IndexReact_send self o : Writer (IndexReact.send self o).
Proof.
  unfold IndexReact.send. writer;
    auto using Writer_renderReact, Writer_handleAttachments, Writer_checkSize,
      Writer_post.
Qed.

Lemma Writer_Smtp_sendEmail self o : Writer (Smtp.sendEmail self o).
Proof.
  unfold Smtp.sendEmail, Smtp.renderReact, Smtp.processAttachment. writer.
Qed.

End DispatchFacts.

Section DispatchShape.

Context {Template : Type} `{!Collaborators Template}.

Lemma quiet_handleAttachments o : Emits quiet (handleAttachments o).
Proof. unfold handleAttachments, handleAttachment. emits. Qed.

Lemma quiet_renderReact o : Emits quiet (IndexReact.renderReact o).
Proof. unfold IndexReact.renderReact. emits. Qed.

Lemma Index_send_dispatch self o tr :
  Index.send self o tr =
    dispatch Index.API_ENDPOINT handleAttachments echo_body self o tr.
Proof. reflexivity. Qed.

Lemma IndexReact_send_dispatch self o tr :
  IndexReact.send self o tr =
    dispatch IndexReact.API_ENDPOINT normalize_react echo_nothing self o tr.
Proof.
  unfold IndexReact.send, dispatch, normalize_react.
  destruct (extractHeaders o) as [extraHeaders o1]. unfold bind.
  destruct (IndexReact.renderReact o1 tr) as [[e | o2] tr1]; [done |].
  destruct (handleAttachments o2 tr1) as [[e | o3] tr2]; [done |].
  destruct (checkSize _ tr2) as [[e | []] tr3]; done.
Qed.

Lemma run_dispatch endpoint normalize echo self options tr :
  (forall o, Writer (normalize o)) ->
  (forall c, Writer (echo c)) ->
  (forall c, outcome (echo c) = inr tt) ->
  dispatch endpoint normalize echo self options tr =
    match outcome (normalize (snd (extractHeaders options))) with
    | inl e => (inl e, tr ++ effects (normalize (snd (extractHeaders options))))
    | inr o2 =>
        let body := JSON.stringify (json_of_options o2) in
        if (Js.length body >? 1024 * 1024)%Z
        then (inl (too_large body),
              tr ++ effects (normalize (snd (extractHeaders options))))
        else post endpoint self (fst (extractHeaders options)) body
               ((tr ++ effects (normalize (snd (extractHeaders options))))
                  ++ effects (echo body))
    end.
Proof.
  intros Hn He He'. unfold dispatch.
  destruct (extractHeaders options) as [extraHeaders o1]. simpl.
  rewrite run_bind by done.
  destruct (outcome (normalize o1)) as [e | o2]; [done |]. simpl.
  unfold checkSize.
  destruct (Js.length _ >? _)%Z; [done |].
  unfold bind at 1. unfold ret at 1.
  rewrite run_bind by done. by rewrite He'.
Qed.

Lemma run_post endpoint self extraHeaders c tr :
  post endpoint self extraHeaders c tr =
    let init := requestInit self extraHeaders c in
    let failed e :=
      (inl e, tr ++ [Fetch endpoint init;
                     ConsoleError [VStr "Error during fetch operation:"; VExn e]]) in
    match fetch endpoint init with
    | inl e => failed e
    | inr response =>
        if ok response
        then match json_body response with
             | inr j =>
                 (inr tt, tr ++ [Fetch endpoint init;
                                 ConsoleLog [VStr "Email sent successfully:"; VJson j]])
             | inl e => failed e
             end
        else match text_body response with
             | inr t =>
                 (inr tt, tr ++ [Fetch endpoint init;
                                 ConsoleError [VStr "Failed to send email:"; VStr t]])
             | inl e => failed e
             end
    end.
Proof.
  unfold post, try_catch, bind, emit, lift, throw. simpl.
  destruct (fetch _ _) as [e | response]; simpl.
  - by rewrite <- app_assoc.
  - destruct (ok response).
    + destruct (json_body response); simpl; by rewrite <- app_assoc.
    + destruct (text_body response); simpl; by rewrite <- app_assoc.
Qed.

End DispatchShape.

(** C1, as stated, fails: of two messages, the first cannot be sent (its
    attachment cannot be read) and the second is sent; [sendEmails] does not
    return two outcomes, it is rejected with the error of the first. *)
Lemma sendEmails_masks_outcomes :
  let world := platform accepted EmptyString in
  let first : EmailOptions unit := with_attachment missing_file in
  let second : EmailOptions unit := plain "Hello" (Some "<b>Hi</b>") in
  let enoent := Error "ENOENT: no such file or directory, open ./missing.txt" in
  outcome (@Index.send unit world key first) = inl enoent
  /\ outcome (@Index.send unit world key second) = inr tt
  /\ outcome (@Index.sendEmails unit world key [first; second]) = inl enoent
  /\ outcome (@IndexReact.sendEmails unit world key [first; second]) = inl enoent.
Proof. repeat split; vm_compute; reflexivity. Qed.

Section FanOut.

Context {Template : Type} `{!Collaborators Template}.

Lemma sendMany_spec {A B} (f : A -> M B) (l : list A) :
  (forall a, Writer (f a)) ->
  effects (sendMany f l) = flat_map (fun a => effects (f a)) l
  /\ (forall vs, outcome (sendMany f l) = inr vs <->
        map (fun a => outcome (f a)) l = map inr vs)
  /\ (forall e, outcome (sendMany f l) = inl e ->
        exists a, a ∈ l /\ outcome (f a) = inl e).
Proof.
  intros Hf. unfold outcome at 1 3, effects at 1.
  rewrite run_sendMany by done. simpl. split; [done |]. split.
  - intros vs. apply Promise_all_fulfilled.
  - intros e [a [Ha Hin]]%Promise_all_rejected%list_elem_of_fmap. eauto.
Qed.

Lemma fulfilled_map {A} (f : A -> M unit) (l : list A) (vs : list unit) :
  map (fun a => outcome (f a)) l = map inr vs <->
  Forall (fun a => outcome (f a) = inr tt) l /\ length vs = length l.
Proof.
  revert vs. induction l as [| a l IH]; intros [| [] vs]; simpl;
    [done | by split; [| intros [_ ?]] | by split; [| intros [_ ?]] |].
  split.
  - intros [= Ha Hl]. apply IH in Hl as [Hl Hlen]. split; [by constructor | by f_equal].
  - intros [[Ha Hl]%Forall_cons [= Hlen]]. rewrite Ha. f_equal. by apply IH.
Qed.

Lemma sendMany_all_or_nothing {A} (f : A -> M unit) (l : list A) :
  (forall a, Writer (f a)) -> all_or_nothing f (sendMany f l) l.
Proof.
  intros Hf. destruct (sendMany_spec f l Hf) as (Heff & Hok & Hko).
  split; [| split; [| split; [done |]]].
  - intros a ev Ha Hev. rewrite Heff. apply list_elem_of_In, in_flat_map.
    exists a. by rewrite <- !list_elem_of_In.
  - intros vs. rewrite Hok. apply fulfilled_map.
  - intros Hex. destruct (outcome (sendMany f l)) as [e | vs] eqn:Hout; [eauto |].
    assert (Hall : Forall (fun a => outcome (f a) = inr tt) l).
    { apply (fulfilled_map f l vs). by apply Hok. }
    apply Exists_exists in Hex as (a & Ha & e & He).
    rewrite Forall_forall in Hall. rewrite (Hall a Ha) in He. done.
Qed.

(** C1, as the code has it.  [sendEmails] starts a send for every element,
    whatever the other elements settle to; when every send is fulfilled it
    returns one (empty) value per element; when some send is rejected the
    whole call is rejected with the error of a rejected element, and no
    per-element outcome is returned.  Both revisions of the HTTP dispatcher
    aggregate this way, and so does the SMTP client. *)
Theorem sendEmails_all_or_nothing (self : Shoutbox) (smtp : Smtp.SMTPClient)
    (options : list (EmailOptions Template)) :
  all_or_nothing (Index.send self) (Index.sendEmails self options) options
  /\ all_or_nothing (IndexReact.send self) (IndexReact.sendEmails self options) options
  /\ all_or_nothing (Smtp.sendEmail smtp) (Smtp.sendEmails smtp options) options.
Proof.
  split; [| split].
  - apply (sendMany_all_or_nothing (Index.send self) options).
    apply Writer_Index_send.
  - apply (sendMany_all_or_nothing (IndexReact.send self) options).
    apply Writer_IndexReact_send.
  - apply (sendMany_all_or_nothing (Smtp.sendEmail smtp) options).
    apply Writer_Smtp_sendEmail.
Qed.

End FanOut.

Section Requests.

Context {Template : Type} `{!Collaborators Template}.

Lemma post_fetches endpoint self extraHeaders c tr url init :
  Fetch url init ∈ snd (post endpoint self extraHeaders c tr) ->
  Fetch url init ∈ tr \/ (url = endpoint /\ init = requestInit self extraHeaders c).
Proof.
  rewrite run_post. simpl.
  set (sent := requestInit self extraHeaders c).
  assert (Hin : forall ev,
            Fetch url init ∈ tr ++ [Fetch endpoint sent; ev] ->
            (forall u i, ev <> Fetch u i) ->
            Fetch url init ∈ tr \/ (url = endpoint /\ init = sent)).
  { intros ev [Hl | Hr]%elem_of_app Hev; [by left |]. right.
    apply elem_of_cons in Hr as [[= -> ->] | Hr]; [done |].
    apply list_elem_of_singleton in Hr. by destruct (Hev url init). }
  destruct (fetch _ _) as [e | response]; simpl; [intros Hf; by eapply Hin |].
  destruct (ok response).
  - destruct (json_body response); simpl; intros Hf; by eapply Hin.
  - destruct (text_body response); simpl; intros Hf; by eapply Hin.
Qed.

(** What a request found in the trace of a send tells about the send. *)
Lemma dispatch_inv endpoint normalize echo self options url init :
  (forall o, Writer (normalize o)) ->
  (forall c, Writer (echo c)) ->
  (forall c, outcome (echo c) = inr tt) ->
  (forall o, Emits quiet (normalize o)) ->
  (forall c, Emits quiet (echo c)) ->
  Fetch url init ∈ effects (dispatch endpoint normalize echo self options) ->
  exists o2 pre,
    outcome (normalize (snd (extractHeaders options))) = inr o2
    /\ (Js.length (JSON.stringify (json_of_options o2)) <= 1024 * 1024)%Z
    /\ url = endpoint
    /\ init = requestInit self (fst (extractHeaders options))
                (JSON.stringify (json_of_options o2))
    /\ Forall quiet pre
    /\ dispatch endpoint normalize echo self options []
       = post endpoint self (fst (extractHeaders options))
           (JSON.stringify (json_of_options o2)) pre.
Proof.
  intros Hn He He' Hqn Hqe. unfold effects.
  rewrite run_dispatch by done.
  pose proof (Emits_effects _ _ (Hqn (snd (extractHeaders options)))) as Hpre.
  destruct (outcome (normalize _)) as [e | o2]; simpl.
  { intros Hin. by apply quiet_not_fetch in Hin. }
  destruct (Js.length _ >? _)%Z eqn:Hlen; simpl.
  { intros Hin. by apply quiet_not_fetch in Hin. }
  intros Hin. exists o2. eexists. split; [done |]. split; [lia |].
  assert (Hq : Forall quiet (effects (normalize (snd (extractHeaders options)))
                               ++ effects (echo (JSON.stringify (json_of_options o2))))).
  { apply Forall_app. split; [done |]. by apply Emits_effects. }
  apply post_fetches in Hin as [Hin | [-> ->]].
  { by apply quiet_not_fetch in Hin. }
  done.
Qed.

End Requests.

Section SendFacts.

Context {Template : Type} `{!Collaborators Template}.

Lemma Writer_normalize_react o : Writer (normalize_react o).
Proof. unfold normalize_react, IndexReact.renderReact, handleAttachments. writer. Qed.

Lemma quiet_normalize_react o : Emits quiet (normalize_react o).
Proof.
  unfold normalize_react. apply Emits_bind; [apply quiet_renderReact |].
  intros o'. apply quiet_handleAttachments.
Qed.

Lemma Index_send_inv self options url init :
  Fetch url init ∈ effects (Index.send self options) ->
  exists o2 pre,
    outcome (handleAttachments (snd (extractHeaders options))) = inr o2
    /\ (Js.length (JSON.stringify (json_of_options o2)) <= 1024 * 1024)%Z
    /\ url = Index.API_ENDPOINT
    /\ init = requestInit self (fst (extractHeaders options))
                (JSON.stringify (json_of_options o2))
    /\ Forall quiet pre
    /\ Index.send self options []
       = post Index.API_ENDPOINT self (fst (extractHeaders options))
           (JSON.stringify (json_of_options o2)) pre.
Proof.
  apply (dispatch_inv Index.API_ENDPOINT handleAttachments echo_body).
  - apply Writer_handleAttachments.
  - intros c. apply Writer_emit.
  - done.
  - apply quiet_handleAttachments.
  - intros c. by apply Emits_emit.
Qed.

Lemma IndexReact_send_inv self options url init :
  Fetch url init ∈ effects (IndexReact.send self options) ->
  exists o2 pre,
    outcome (normalize_react (snd (extractHeaders options))) = inr o2
    /\ (Js.length (JSON.stringify (json_of_options o2)) <= 1024 * 1024)%Z
    /\ url = IndexReact.API_ENDPOINT
    /\ init = requestInit self (fst (extractHeaders options))
                (JSON.stringify (json_of_options o2))
    /\ Forall quiet pre
    /\ IndexReact.send self options []
       = post IndexReact.API_ENDPOINT self (fst (extractHeaders options))
           (JSON.stringify (json_of_options o2)) pre.
Proof.
  unfold effects. rewrite !IndexReact_send_dispatch.
  apply (dispatch_inv IndexReact.API_ENDPOINT normalize_react echo_nothing).
  - apply Writer_normalize_react.
  - intros c. apply Writer_ret.
  - done.
  - apply quiet_normalize_react.
  - intros c. apply Emits_ret.
Qed.

Lemma post_not_ok endpoint self extraHeaders c tr response t :
  fetch endpoint (requestInit self extraHeaders c) = inr response ->
  ok response = false ->
  text_body response = inr t ->
  post endpoint self extraHeaders c tr
  = (inr tt, tr ++ [Fetch endpoint (requestInit self extraHeaders c);
                    ConsoleError [VStr "Failed to send email:"; VStr t]]).
Proof. intros Hf Hok Ht. rewrite run_post. simpl. by rewrite Hf, Hok, Ht. Qed.

(** C2, as the code has it.  When the service answers a send with a non-2xx
    status, the response text is read and written to the error console, and
    the send is fulfilled with no value, as it is on success: nothing is
    thrown and nothing is returned to the caller. *)
Theorem non_2xx_is_logged_and_fulfilled (self : Shoutbox)
    (options : EmailOptions Template) (url : string) (init : RequestInit.t)
    (response : Response) (t : string) :
  fetch url init = inr response ->
  ok response = false ->
  text_body response = inr t ->
  (Fetch url init ∈ effects (Index.send self options) ->
   outcome (Index.send self options) = inr tt
   /\ last (effects (Index.send self options))
      = Some (ConsoleError [VStr "Failed to send email:"; VStr t]))
  /\
  (Fetch url init ∈ effects (IndexReact.send self options) ->
   outcome (IndexReact.send self options) = inr tt
   /\ last (effects (IndexReact.send self options))
      = Some (ConsoleError [VStr "Failed to send email:"; VStr t])).
Proof.
  intros Hf Hok Ht. split; intros Hin.
  - apply Index_send_inv in Hin as (o2 & pre & _ & _ & -> & -> & _ & Hrun).
    rewrite (post_not_ok _ _ _ _ _ response t) in Hrun by done.
    unfold outcome, effects. rewrite Hrun. simpl. split; [done |].
    by rewrite last_app.
  - apply IndexReact_send_inv in Hin as (o2 & pre & _ & _ & -> & -> & _ & Hrun).
    rewrite (post_not_ok _ _ _ _ _ response t) in Hrun by done.
    unfold outcome, effects. rewrite Hrun. simpl. split; [done |].
    by rewrite last_app.
Qed.

End SendFacts.

(** C2, as stated, fails: a rejected request and an accepted one give the
    caller the same outcome. *)
Lemma rejection_is_not_surfaced :
  let message : EmailOptions unit := plain "Hello" (Some "<b>Hi</b>") in
  outcome (@Index.send unit (platform unauthorized EmptyString) key message) = inr tt
  /\ outcome (@Index.send unit (platform accepted EmptyString) key message) = inr tt
  /\ outcome (@IndexReact.send unit (platform unauthorized EmptyString) key message)
     = inr tt
  /\ outcome (@IndexReact.send unit (platform accepted EmptyString) key message)
     = inr tt.
Proof. repeat split; vm_compute; reflexivity. Qed.

(** At a service that answers 401 with the text [Unauthorized]. *)
Lemma non_2xx_is_logged_and_fulfilled_witness :
  let world := platform unauthorized EmptyString in
  let message : EmailOptions unit := plain "Hello" (Some "<b>Hi</b>") in
  let init :=
    requestInit key ∅ (JSON.stringify (@json_of_options unit world message)) in
  outcome (@Index.send unit world key message) = inr tt
  /\ last (effects (@Index.send unit world key message))
     = Some (ConsoleError [VStr "Failed to send email:"; VStr "Unauthorized"]).
Proof.
  intros world message init.
  apply (proj1 (@non_2xx_is_logged_and_fulfilled unit world key message
                  "https://api.shoutbox.net/send" init unauthorized "Unauthorized"
                  eq_refl eq_refl eq_refl)).
  vm_compute. right. left.
Defined.

(** ** Custom headers *)


Section Headers.

Context {Template : Type} `{!Collaborators Template}.












End Headers.



(** ** Sizes: code units and bytes *)

Lemma length_append (a b : string) :
  String.length (a +:+ b) = String.length a + String.length b.
Proof. induction a as [| c a IH]; simpl; [done | by rewrite IH]. Qed.

Lemma utf8_len_cons c s :
  Js.utf8_len (String c s) = length (Js.utf8_char c) + Js.utf8_len s.
Proof. unfold Js.utf8_len, Js.utf8_encode. simpl. by rewrite length_app. Qed.

Lemma utf8_len_append (a b : string) :
  Js.utf8_len (a +:+ b) = Js.utf8_len a + Js.utf8_len b.
Proof.
  induction a as [| c a IH]; [done |].
  change (String c a +:+ b) with (String c (a +:+ b)).
  rewrite !utf8_len_cons, IH. lia.
Qed.

Lemma length_quote s : String.length (JSON.quote s) = 2 + String.length (JSON.escape s).
Proof. unfold JSON.quote. simpl. rewrite length_append. simpl. lia. Qed.

Lemma utf8_len_quote s : Js.utf8_len (JSON.quote s) = 2 + Js.utf8_len (JSON.escape s).
Proof.
  unfold JSON.quote. rewrite utf8_len_cons, utf8_len_append. simpl.
  unfold Js.utf8_len at 2. simpl. lia.
Qed.

Lemma escape_replicate n c :
  JSON.quote_char c = String c EmptyString ->
  JSON.escape (Js.replicate n c) = Js.replicate n c.
Proof. intros Hc. induction n as [| n IH]; simpl; [done |]. by rewrite Hc, IH. Qed.

Lemma length_replicate n c : String.length (Js.replicate n c) = n.
Proof. induction n as [| n IH]; simpl; [done | by rewrite IH]. Qed.

Lemma utf8_len_replicate n c :
  length (Js.utf8_char c) = 2 -> Js.utf8_len (Js.replicate n c) = 2 * n.
Proof.
  intros Hc. induction n as [| n IH]; [done |].
  simpl Js.replicate. rewrite utf8_len_cons, Hc, IH. lia.
Qed.

(** A string has at most as many code units as bytes. *)
Lemma length_le_byteLength (s : string) : (Js.length s <= Js.byteLength s)%Z.
Proof.
  unfold Js.length, Js.byteLength. apply inj_le.
  induction s as [| c s IH]; [done |].
  rewrite utf8_len_cons. simpl String.length.
  assert (1 <= length (Js.utf8_char c)); [| lia].
  unfold Js.utf8_char. destruct (_ <? _)%N; simpl; lia.
Qed.

Section Sizes.

Context {Template : Type} `{!Collaborators Template}.

Lemma accented_sizes (n : nat) :
  Js.length (JSON.stringify (json_of_options (Template := Template) (accented n)))
    = (Z.of_nat n + 81)%Z
  /\ Js.byteLength (JSON.stringify (json_of_options (Template := Template) (accented n)))
    = (2 * Z.of_nat n + 81)%Z.
Proof.
  unfold Js.length, Js.byteLength.
  simpl JSON.stringify.
  rewrite !length_append, !utf8_len_append, !length_quote, !utf8_len_quote.
  rewrite escape_replicate by done.
  rewrite length_replicate, utf8_len_replicate by done.
  unfold Js.utf8_len. simpl. lia.
Qed.


Lemma post_issues_fetch endpoint self extraHeaders c tr :
  Fetch endpoint (requestInit self extraHeaders c)
    ∈ snd (post endpoint self extraHeaders c tr).
Proof.
  rewrite run_post. simpl.
  destruct (fetch _ _) as [e | response]; simpl; [set_solver |].
  destruct (ok response).
  - destruct (json_body response); simpl; set_solver.
  - destruct (text_body response); simpl; set_solver.
Qed.

(** The size check of [send], on the shape both revisions share: the body
    is measured in UTF-16 code units. *)
Lemma dispatch_size_gate endpoint normalize echo self options o2 :
  (forall o, Writer (normalize o)) ->
  (forall c, Writer (echo c)) ->
  (forall c, outcome (echo c) = inr tt) ->
  (forall o, Emits quiet (normalize o)) ->
  outcome (normalize (snd (extractHeaders options))) = inr o2 ->
  let body := JSON.stringify (json_of_options o2) in
  let run := dispatch endpoint normalize echo self options in
  ((Js.length body > 1024 * 1024)%Z ->
   outcome run = inl (too_large body) /\ Forall quiet (effects run))
  /\ ((Js.length body <= 1024 * 1024)%Z ->
      Fetch endpoint (requestInit self (fst (extractHeaders options)) body)
        ∈ effects run).
Proof.
  intros Hn He He' Hq Ho2 body run. unfold run, outcome at 1, effects.
  rewrite run_dispatch by done. rewrite Ho2. cbv zeta. fold body.
  pose proof (Emits_effects _ _ (Hq (snd (extractHeaders options)))) as Hpre.
  split; intros Hlen.
  - destruct (Z.gtb_spec (Js.length body) (1024 * 1024)) as [_ | Hle]; [| lia].
    simpl. by split.
  - destruct (Z.gtb_spec (Js.length body) (1024 * 1024)) as [Hgt | _]; [lia |].
    apply post_issues_fetch.
Qed.

Lemma Index_size_gate self options o2 :
  outcome (handleAttachments (snd (extractHeaders options))) = inr o2 ->
  let body := JSON.stringify (json_of_options o2) in
  ((Js.length body > 1024 * 1024)%Z ->
   outcome (Index.send self options) = inl (too_large body)
   /\ Forall quiet (effects (Index.send self options)))
  /\ ((Js.length body <= 1024 * 1024)%Z ->
      Fetch Index.API_ENDPOINT (requestInit self (fst (extractHeaders options)) body)
        ∈ effects (Index.send self options)).
Proof.
  apply (dispatch_size_gate Index.API_ENDPOINT handleAttachments echo_body).
  - apply Writer_handleAttachments.
  - intros c. apply Writer_emit.
  - done.
  - apply quiet_handleAttachments.
Qed.

Lemma IndexReact_size_gate self options o2 :
  outcome (normalize_react (snd (extractHeaders options))) = inr o2 ->
  let body := JSON.stringify (json_of_options o2) in
  ((Js.length body > 1024 * 1024)%Z ->
   outcome (IndexReact.send self options) = inl (too_large body)
   /\ Forall quiet (effects (IndexReact.send self options)))
  /\ ((Js.length body <= 1024 * 1024)%Z ->
      Fetch IndexReact.API_ENDPOINT
        (requestInit self (fst (extractHeaders options)) body)
        ∈ effects (IndexReact.send self options)).
Proof.
  unfold outcome at 2, effects. rewrite !IndexReact_send_dispatch.
  apply (dispatch_size_gate IndexReact.API_ENDPOINT normalize_react echo_nothing).
  - apply Writer_normalize_react.
  - intros c. apply Writer_ret.
  - done.
  - apply quiet_normalize_react.
Qed.

(** A body of exactly 1,048,576 bytes is posted. *)
Lemma body_at_the_limit_is_posted self options o2 o3 :
  outcome (handleAttachments (snd (extractHeaders options))) = inr o2 ->
  outcome (normalize_react (snd (extractHeaders options))) = inr o3 ->
  (Js.byteLength (JSON.stringify (json_of_options o2)) = (1024 * 1024)%Z ->
   Fetch Index.API_ENDPOINT
     (requestInit self (fst (extractHeaders options))
        (JSON.stringify (json_of_options o2)))
     ∈ effects (Index.send self options))
  /\ (Js.byteLength (JSON.stringify (json_of_options o3)) = (1024 * 1024)%Z ->
      Fetch IndexReact.API_ENDPOINT
        (requestInit self (fst (extractHeaders options))
           (JSON.stringify (json_of_options o3)))
        ∈ effects (IndexReact.send self options)).
Proof.
  intros Ho2 Ho3. split; intros Hbytes.
  - apply (Index_size_gate self options o2 Ho2). cbv zeta.
    pose proof (length_le_byteLength (JSON.stringify (json_of_options o2))). lia.
  - apply (IndexReact_size_gate self options o3 Ho3). cbv zeta.
    pose proof (length_le_byteLength (JSON.stringify (json_of_options o3))). lia.
Qed.

Lemma accented_is_posted self (n : nat) :
  (Z.of_nat n + 81 <= 1024 * 1024)%Z ->
  let body := JSON.stringify (json_of_options (Template := Template) (accented n)) in
  Fetch Index.API_ENDPOINT (requestInit self ∅ body)
    ∈ effects (Index.send self (accented n))
  /\ Fetch IndexReact.API_ENDPOINT (requestInit self ∅ body)
    ∈ effects (IndexReact.send self (accented n)).
Proof.
  intros Hn body. subst body. destruct (accented_sizes n) as [Hlen _]. split.
  - apply (Index_size_gate self (accented n) (accented n)); [done |].
    cbv zeta. lia.
  - apply (IndexReact_size_gate self (accented n) (accented n)); [done |].
    cbv zeta. lia.
Qed.

(** C3 at a body that exceeds 1,048,576 bytes: a message whose HTML is
    1,048,495 times the letter U+00E9 serializes to exactly 1,048,576 code
    units, which are 2,097,071 bytes in UTF-8; the size check passes and the
    request is issued. *)
Theorem accented_body_passes_size_check (self : Shoutbox) :
  let message : EmailOptions Template := accented (N.to_nat 1048495) in
  let body := JSON.stringify (json_of_options message) in
  Js.length body = 1048576%Z
  /\ Js.byteLength body = 2097071%Z
  /\ Fetch Index.API_ENDPOINT (requestInit self ∅ body)
       ∈ effects (Index.send self message)
  /\ Fetch IndexReact.API_ENDPOINT (requestInit self ∅ body)
       ∈ effects (IndexReact.send self message).
Proof.
  intros message body. subst message body.
  destruct (accented_sizes (N.to_nat 1048495)) as [Hlen Hbytes].
  destruct (accented_is_posted self (N.to_nat 1048495)) as [Hv1 Hv2].
  { rewrite N_nat_Z. lia. }
  rewrite N_nat_Z in Hlen, Hbytes.
  exact (conj Hlen (conj Hbytes (conj Hv1 Hv2))).
Qed.

End Sizes.

(** ** Construction *)

Section Construction.

Context {Template : Type} `{!Collaborators Template}.

(** Constructing the HTTP dispatcher with an absent or empty credential,
    when the environment holds no key, fails with the configuration error,
    in both revisions: no dispatcher exists to send with. *)
Lemma Shoutbox_requires_credential (apiKey : Credential) :
  missing apiKey ->
  env "SHOUTBOX_API_KEY" = None ->
  Index.new apiKey = inl required /\ IndexReact.new apiKey = inl required.
Proof.
  intros Hmiss Henv. unfold Index.new, IndexReact.new. split.
  - destruct Hmiss as [-> | [-> | ->]]; simpl; by rewrite Henv.
  - destruct Hmiss as [-> | [-> | ->]]; simpl; by rewrite ?Henv.
Qed.

(** The revision that renders templates also refuses a blank credential. *)
Lemma IndexReact_refuses_blank_credential :
  IndexReact.new (Given "   ") = inl required.
Proof. reflexivity. Qed.

End Construction.

(** C4 at the empty credential: the SMTP client is constructed, with the
    empty string as the password of its transport, where the specification
    asks for the configuration error the HTTP dispatcher raises. *)
Theorem SMTPClient_accepts_empty_credential :
  exists client,
    Smtp.new EmptyString = inr client
    /\ pass (Smtp.transporter client) = EmptyString
    /\ ~ (exists e, Smtp.new EmptyString = inl e).
Proof.
  eexists. split; [reflexivity |]. split; [reflexivity |].
  intros [e He]. discriminate He.
Qed.

(** ** Tag stripping *)

Lemma scan_tags_snd opens s :
  snd (Js.scan_tags opens s) = Js.remove_tags opens <$> Js.after_gt s.
Proof.
  induction s as [| c r IH]; [done |]. simpl.
  destruct (Js.scan_tags opens r) as [out_r in_r] eqn:Hr. simpl in *.
  destruct (Ascii.eqb c Js.gt); [| done].
  simpl. unfold Js.remove_tags. by rewrite Hr.
Qed.

(** The equations of [s.replace(/P[^>]*>/g, '')]. *)
Lemma remove_tags_cons opens c r :
  Js.remove_tags opens (String c r) =
    if opens (String c r)
    then match Js.after_gt r with
         | Some rest => Js.remove_tags opens rest
         | None => String c (Js.remove_tags opens r)
         end
    else String c (Js.remove_tags opens r).
Proof.
  pose proof (scan_tags_snd opens r) as Hsnd.
  unfold Js.remove_tags in *. cbn [Js.scan_tags].
  destruct (Js.scan_tags opens r) as [out_r in_r]. simpl in *. subst in_r.
  destruct (opens (String c r)); [| done]. by destruct (Js.after_gt r).
Qed.

Lemma stripHtml_cons c r :
  Smtp.stripHtml (String c r) =
    if Ascii.eqb c Js.lt
    then match Js.after_gt r with
         | Some rest => Smtp.stripHtml rest
         | None => String c (Smtp.stripHtml r)
         end
    else String c (Smtp.stripHtml r).
Proof.
  unfold Smtp.stripHtml. rewrite remove_tags_cons. cbn [Js.starts_with].
  rewrite (Ascii.eqb_sym c Js.lt). change Js.lt with "<"%char.
  by destruct (Ascii.eqb "<" c).
Qed.

Lemma stripHtml_Stripped s : Stripped s (Smtp.stripHtml s).
Proof.
  assert (H : Stripped s (Smtp.stripHtml s)
              /\ forall rest, Js.after_gt s = Some rest ->
                              Stripped rest (Smtp.stripHtml rest)).
  { induction s as [| c r [IH1 IH2]].
    - split; [constructor | done].
    - split.
      + rewrite stripHtml_cons. destruct (Ascii.eqb_spec c Js.lt) as [-> | Hc].
        * destruct (Js.after_gt r) as [rest |] eqn:Hr.
          -- eapply Stripped_tag; [done | by apply IH2].
          -- by apply Stripped_open.
        * by apply Stripped_char.
      + intros rest. cbn [Js.after_gt]. destruct (Ascii.eqb c Js.gt).
        * intros [= <-]. exact IH1.
        * apply IH2. }
  exact (proj1 H).
Qed.

Lemma Stripped_functional s t1 t2 : Stripped s t1 -> Stripped s t2 -> t1 = t2.
Proof.
  intros H1. revert t2. induction H1; intros t2 H2; inversion H2; subst;
    try done; try congruence.
  - f_equal. by apply IHStripped.
  - apply IHStripped. congruence.
  - f_equal. by apply IHStripped.
Qed.

(** ** The SMTP path *)

Lemma run_try_catch {A} (m : M A) (handler : exn -> M A) tr :
  Writer m ->
  try_catch m handler tr =
    match outcome m with
    | inr a => (inr a, tr ++ effects m)
    | inl e => handler e (tr ++ effects m)
    end.
Proof. intros Hm. unfold try_catch. rewrite (Hm tr). by destruct (outcome m). Qed.

(** A submission cannot occur in a trace of quiet events. *)
Ltac no_mail H :=
  exfalso; eapply quiet_not_mail; [| exact H]; eassumption.

Section SmtpFacts.

Context {Template : Type} `{!Collaborators Template}.

Lemma Writer_Smtp_renderReact o : Writer (Smtp.renderReact o).
Proof. unfold Smtp.renderReact. writer. Qed.

Lemma Writer_processAttachment e : Writer (Smtp.processAttachment e).
Proof. unfold Smtp.processAttachment. writer. Qed.

Lemma quiet_Smtp_renderReact o : Emits quiet (Smtp.renderReact o).
Proof. unfold Smtp.renderReact. emits. Qed.

Lemma quiet_processAttachment e : Emits quiet (Smtp.processAttachment e).
Proof. unfold Smtp.processAttachment. emits. Qed.

(** What a submission found in the trace of [sendEmail] tells. *)
Lemma Smtp_sendEmail_inv self options t mail :
  SendMail t mail ∈ effects (Smtp.sendEmail self options) ->
  exists o1 atts,
    outcome (Smtp.renderReact options) = inr o1
    /\ outcome (forEach Smtp.processAttachment (default [] (attachments o1))) = inr atts
    /\ t = Smtp.transporter self
    /\ mail = Smtp.mailOptions o1 atts.
Proof.
  unfold effects at 1, Smtp.sendEmail, try_catch.
  rewrite run_bind by apply Writer_Smtp_renderReact.
  pose proof (Emits_effects _ _ (quiet_Smtp_renderReact options)) as Hq1.
  destruct (outcome (Smtp.renderReact options)) as [e | o1]; simpl.
  { intros [Hin | Hin]%elem_of_app; [no_mail Hin |].
    by apply list_elem_of_singleton in Hin. }
  rewrite run_bind by (apply Writer_forEach; apply Writer_processAttachment).
  pose proof (Emits_effects _ _
                (Emits_forEach quiet Smtp.processAttachment
                   (default [] (attachments o1)) quiet_processAttachment)) as Hq2.
  destruct (outcome (forEach _ _)) as [e | atts] eqn:Hatts; simpl.
  { intros [[Hin | Hin]%elem_of_app | Hin]%elem_of_app.
    - no_mail Hin.
    - no_mail Hin.
    - by apply list_elem_of_singleton in Hin. }
  intros Hin. exists o1, atts. split; [done |]. split; [done |].
  assert (Hev : SendMail t mail
                  = SendMail (Smtp.transporter self) (Smtp.mailOptions o1 atts));
    [| by injection Hev].
  revert Hin. unfold bind, emit, lift, throw. simpl.
  destruct (sendMail _ _) as [e | []]; simpl;
    rewrite !elem_of_app, ?list_elem_of_singleton;
    intros Hin; destruct_or?; try done;
    match goal with H : _ ∈ _ |- _ => no_mail H end.
Qed.

Lemma Smtp_renderReact_fields (o o1 : EmailOptions Template) :
  outcome (Smtp.renderReact o) = inr o1 ->
  text o1 = text o
  /\ match react o with
     | Some template => exists rendered,
         render template = inr rendered /\ html o1 = Some rendered
     | None => html o1 = html o
     end.
Proof.
  unfold outcome, Smtp.renderReact. destruct (react o) as [template |].
  - unfold bind, emit, lift. simpl.
    destruct (render template) as [e | rendered]; [done |].
    intros [= <-]. split; [done |]. by exists rendered.
  - by intros [= <-].
Qed.

(** C8, as the code has it.  On the SMTP path, when [text] is absent and the
    HTML body of the message is present and not empty, the text of the
    message is that HTML with every substring from a ['<'] through the next
    ['>'] removed; the HTML of the example gives the text of the example. *)
Theorem text_fallback_strips_tags (self : Smtp.SMTPClient)
    (options : EmailOptions Template) (t : Transport) (mail : Mail.t) (h : string) :
  text options = None ->
  SendMail t mail ∈ effects (Smtp.sendEmail self options) ->
  Mail.html mail = Some h ->
  h <> EmptyString ->
  Mail.text mail = Some (Smtp.stripHtml h)
  /\ Stripped h (Smtp.stripHtml h)
  /\ Smtp.stripHtml "<h1>Hi</h1><p>Bye</p>" = "HiBye".
Proof.
  intros Htext Hin Hhtml Hh.
  apply Smtp_sendEmail_inv in Hin as (o1 & atts & Ho1 & _ & _ & ->).
  apply Smtp_renderReact_fields in Ho1 as [Ht _].
  simpl in Hhtml. split; [| split; [apply stripHtml_Stripped | reflexivity]].
  simpl. rewrite Ht, Htext, Hhtml. simpl. by destruct h.
Qed.

End SmtpFacts.

(** C8, as stated, fails: with [text] absent and [html] present as the
    empty string, the message has no text, where the HTML with its tags
    removed is the empty string. *)
Lemma empty_html_gives_no_text :
  let message : EmailOptions unit := plain "Hello" (Some EmptyString) in
  text message = None
  /\ html message = Some EmptyString
  /\ (exists mail,
        effects (@Smtp.sendEmail unit (platform accepted EmptyString) client message)
        = [SendMail (Smtp.transporter client) mail]
        /\ Mail.text mail = None)
  /\ Some (Smtp.stripHtml EmptyString) <> None.
Proof.
  repeat split; [| done]. eexists. split; [vm_compute; reflexivity | reflexivity].
Qed.

(** At the HTML of the specification. *)
Lemma text_fallback_strips_tags_witness :
  let message : EmailOptions unit := plain "Hello" (Some "<h1>Hi</h1><p>Bye</p>") in
  let mail := Smtp.mailOptions message [] in
  Mail.text mail = Some (Smtp.stripHtml "<h1>Hi</h1><p>Bye</p>")
  /\ Stripped "<h1>Hi</h1><p>Bye</p>" (Smtp.stripHtml "<h1>Hi</h1><p>Bye</p>")
  /\ Smtp.stripHtml "<h1>Hi</h1><p>Bye</p>" = "HiBye".
Proof.
  intros message mail.
  apply (@text_fallback_strips_tags unit (platform accepted EmptyString) client message
           (Smtp.transporter client) mail "<h1>Hi</h1><p>Bye</p>").
  - reflexivity.
  - vm_compute. left.
  - reflexivity.
  - discriminate.
Defined.

(** ** Template rendering *)

Lemma chars_str l : Js.chars (Js.str l) = l.
Proof. apply String.list_ascii_of_string_of_list_ascii. Qed.


Lemma elem_of_rev {A} (x : A) (l : list A) : x ∈ rev l <-> x ∈ l.
Proof. rewrite !list_elem_of_In. symmetry. apply in_rev. Qed.


Section Rendering.

Context {Template : Type} `{!Collaborators Template}.



End Rendering.

Section Templates.

Context {Template : Type} `{!Collaborators Template}.



Lemma extractHeaders_react (o : EmailOptions Template) :
  react (snd (extractHeaders o)) = react o.
Proof. unfold extractHeaders. by destruct (headers o). Qed.


End Templates.



(** ** Base64 round trip *)

Module Base64Facts.

Import Base64.

Local Open Scope N_scope.












End Base64Facts.

(** ** Attachments *)

Lemma basename_nonempty (path : string) :
  (exists c, c ∈ Js.chars path /\ c <> Js.slash) -> basename path <> EmptyString.
Proof.
  intros (c & Hin & Hc). unfold basename. cbv zeta.
  set (is_slash := fun c : ascii => Ascii.eqb c Js.slash).
  assert (Hd : exists c' l', Js.drop_while is_slash (rev (Js.chars path)) = c' :: l'
                             /\ is_slash c' = false).
  { apply elem_of_rev in Hin. induction (rev (Js.chars path)) as [| x l IH]; simpl.
    - by apply elem_of_nil in Hin.
    - destruct (is_slash x) eqn:Hx.
      + apply IH. apply elem_of_cons in Hin as [-> | Hin]; [| done].
        unfold is_slash in Hx. by apply Ascii.eqb_eq in Hx.
      + by exists x, l. }
  destruct Hd as (c' & l' & -> & Hc'). cbn [Js.take_while]. cbv beta.
  unfold is_slash in Hc'. rewrite Hc'. cbn [negb rev]. intros Hs.
  apply (f_equal Js.chars) in Hs. rewrite chars_str in Hs.
  by apply app_eq_nil in Hs as [_ ?].
Qed.

Lemma forEach_Forall2 {A B} (f : A -> M B) (l : list A) (l' : list B) tr tr' :
  forEach f l tr = (inr l', tr') ->
  Forall2 (fun a b => exists t1 t2, f a t1 = (inr b, t2)) l l'.
Proof.
  revert l' tr tr'. induction l as [| a l IH]; intros l' tr tr'; simpl.
  - intros [= <- _]. constructor.
  - unfold bind at 1. destruct (f a tr) as [[e | b] tr1] eqn:Hf; [done |].
    unfold bind at 1. destruct (forEach f l tr1) as [[e | bs] tr2] eqn:Hl; [done |].
    intros [= <- _]. constructor; [by eauto |]. by eapply IH.
Qed.

Section Attachments.

Context {Template : Type} `{!Collaborators Template}.

Lemma truthy_opt_nonempty a s : Js.truthy_opt a = Some s -> s <> EmptyString.
Proof.
  destruct a as [[| c r] |]; simpl; [done | | done]. by intros [= <-].
Qed.

Lemma truthy_opt_Some a s : Js.truthy_opt a = Some s -> a = Some s.
Proof. destruct a as [[| c r] |]; simpl; [done | | done]. by intros [= <-]. Qed.

Lemma resolved_type_nonempty e : resolved_type e <> EmptyString.
Proof.
  unfold resolved_type.
  destruct (Js.truthy_opt _) as [s |] eqn:Hs; simpl; [| done].
  by eapply truthy_opt_nonempty.
Qed.

Lemma finish_spec (e : Attachment) (c : Content) :
  content e = Some c ->
  filename (finish e) = Some (resolved_name e)
  /\ contentType (finish e) = Some (resolved_type e)
  /\ content (finish e) = Some (Str (http_payload c))
  /\ filepath (finish e) = filepath e.
Proof.
  destruct e as [fn fp ct co]. simpl. intros ->.
  unfold finish, resolved_type, resolved_name.
  destruct fn as [[| c0 f] |], ct as [[| c1 t] |], c as [s | b]; simpl; done.
Qed.

Lemma content_truthy_Some co c : content_truthy co = Some c -> co = Some c.
Proof.
  destruct co as [[s | b] |]; simpl; [| done | done]. by destruct (Js.truthy s).
Qed.





Lemma handleAttachment_resolved (e e' : Attachment) tr tr' :
  handleAttachment e tr = (inr e', tr') ->
  filename e' = Some (resolved_name e)
  /\ contentType e' = Some (resolved_type e)
  /\ (exists s, content e' = Some (Str s))
  /\ filepath e' = filepath e.
Proof.
  unfold handleAttachment, bind, ret, emit, lift.
  destruct (content_truthy (content e)) as [c |] eqn:Hc.
  - intros [= <- _]. apply content_truthy_Some in Hc.
    destruct (finish_spec e c Hc) as (? & ? & ? & ?). eauto 10.
  - simpl. destruct (readFile (filepath e)) as [err | b]; [done |].
    intros [= <- _].
    destruct (finish_spec (set_content (Buf b) e) (Buf b) eq_refl) as (? & ? & ? & ?).
    eauto 10.
Qed.

Lemma processAttachment_resolved (e : Attachment) (a : Mail.attachment) tr tr' :
  Smtp.processAttachment e tr = (inr a, tr') ->
  Mail.filename a = resolved_name e /\ Mail.contentType a = resolved_type e.
Proof.
  unfold Smtp.processAttachment, bind, ret, emit, lift.
  destruct (content_truthy (content e)) as [c |].
  - by intros [= <- _].
  - simpl. destruct (readFile (filepath e)); [done |]. by intros [= <- _].
Qed.

(** C6, as the code has it.  After normalization, on either path, every
    attachment has a content type that is not empty and a resolved content,
    and its file name is the one supplied or, when none (or the empty one)
    is supplied, the last segment of [filepath]; a content type that is not
    supplied is looked up by file name, with [application/octet-stream] when
    the lookup finds nothing.  The file name is not empty when one is
    supplied or [filepath] has a character other than the slash. *)
Theorem attachments_are_normalized (options o' : EmailOptions Template)
    (l : list Attachment) (tr tr' : list event) :
  attachments options = Some l ->
  handleAttachments options tr = (inr o', tr') ->
  (exists l', attachments o' = Some l' /\ Forall2 normalized l l')
  /\ (forall atts tr1 tr2,
        forEach Smtp.processAttachment l tr1 = (inr atts, tr2) ->
        Forall2 (fun e a => Mail.filename a = resolved_name e
                            /\ Mail.contentType a = resolved_type e) l atts)
  /\ Forall (fun e =>
       resolved_type e <> EmptyString
       /\ (Js.truthy_opt (filename e) = None ->
           resolved_name e = basename (filepath e))
       /\ (forall f, Js.truthy_opt (filename e) = Some f -> resolved_name e = f)
       /\ (Js.truthy_opt (contentType e) = None ->
           Js.truthy_opt (mime_lookup (resolved_name e)) = None ->
           resolved_type e = "application/octet-stream")
       /\ (is_Some (Js.truthy_opt (filename e))
           \/ (exists c, c ∈ Js.chars (filepath e) /\ c <> Js.slash) ->
           resolved_name e <> EmptyString)) l.
Proof.
  intros Hl Hrun. split; [| split].
  - unfold handleAttachments in Hrun. rewrite Hl in Hrun. unfold bind in Hrun.
    destruct (forEach handleAttachment l tr) as [[e | l'] tr1] eqn:Hfor; [done |].
    injection Hrun as <- _. exists l'. split; [done |].
    apply forEach_Forall2 in Hfor.
    eapply Forall2_impl; [exact Hfor |]. intros e e' (t1 & t2 & He).
    by eapply handleAttachment_resolved.
  - intros atts tr1 tr2 Hfor. apply forEach_Forall2 in Hfor.
    eapply Forall2_impl; [exact Hfor |]. intros e a (t1 & t2 & He).
    by eapply processAttachment_resolved.
  - apply Forall_forall. intros e _. split; [apply resolved_type_nonempty |].
    unfold resolved_type, resolved_name. split; [by intros -> |].
    split; [by intros f -> |]. split.
    + intros Hct Hmime. 
      destruct (contentType e) as [[| c t] |]; simpl in Hct; try done;
        unfold Js.or_else; cbn [Js.truthy]; by rewrite Hmime.
    + intros [[f Hf] | Hpath].
      * rewrite Hf. simpl. by eapply truthy_opt_nonempty.
      * destruct (Js.truthy_opt (filename e)) as [f |] eqn:Hf; simpl.
        -- by eapply truthy_opt_nonempty.
        -- by apply basename_nonempty.
Qed.

End Attachments.



(** C6, as stated, fails: an attachment given by its content, with no file
    name and an empty [filepath], is normalized to an attachment whose file
    name is empty, on both paths. *)
Lemma empty_filename_after_normalization :
  let world := platform accepted EmptyString in
  (exists e', @handleAttachment unit world inline [] = (inr e', [])
              /\ filename e' = Some EmptyString)
  /\ (exists a, @Smtp.processAttachment unit world inline [] = (inr a, [])
                /\ Mail.filename a = EmptyString).
Proof.
  split; eexists; (split; [vm_compute; reflexivity | reflexivity]).
Qed.

(** At an attachment given as a buffer, with a path and nothing else. *)
Lemma attachments_are_normalized_witness :
  let world := platform accepted EmptyString in
  let message : EmailOptions unit := with_attachment report in
  let sent : EmailOptions unit :=
    set_attachments
      [{| filename := Some "important.txt"; filepath := "./examples/important.txt";
          contentType := Some "application/octet-stream";
          content := Some (Str "aGk=") |}] message in
  exists l', attachments sent = Some l'
             /\ Forall2 (normalized (Collaborators0 := world)) [report] l'.
Proof.
  intros world message sent.
  refine (proj1 (@attachments_are_normalized unit world message sent
                   [report] [] [] eq_refl _)).
  vm_compute. reflexivity.
Defined.

(** * Further properties of the code

    ** Traces of a send *)

Lemma harmless_requests tr : Forall harmless tr -> requests tr = [].
Proof.
  induction 1 as [| ev tr Hev _ IH]; [done |]. by destruct ev.
Qed.

Lemma harmless_error_reports tr : Forall harmless tr -> error_reports tr = [].
Proof.
  induction 1 as [| ev tr Hev _ IH]; [done |]. by destruct ev.
Qed.

Lemma reading_harmless tr : Forall reading tr -> Forall harmless tr.
Proof. intros H. eapply Forall_impl; [exact H |]. by intros []. Qed.

Section Shape.

Context {Template : Type} `{!Collaborators Template}.

Lemma reading_handleAttachments o : Emits reading (handleAttachments o).
Proof. unfold handleAttachments, handleAttachment. emits. Qed.

Lemma reading_normalize_react o : Emits reading (normalize_react o).
Proof.
  unfold normalize_react, IndexReact.renderReact, handleAttachments, handleAttachment.
  emits.
Qed.

Lemma post_settles endpoint self extraHeaders c tr :
  exists r ev,
    post endpoint self extraHeaders c tr
    = (r, tr ++ [Fetch endpoint (requestInit self extraHeaders c); ev])
    /\ settles (fetch endpoint (requestInit self extraHeaders c)) r ev.
Proof.
  rewrite run_post. cbv zeta.
  destruct (fetch _ _) as [e | r]; [eauto using settles |].
  destruct (ok r) eqn:Hok.
  - destruct (json_body r) eqn:Hj; eauto using settles.
  - destruct (text_body r) eqn:Ht; eauto using settles.
Qed.

Lemma dispatch_ends endpoint normalize echo self options :
  (forall o, Writer (normalize o)) ->
  (forall c, Writer (echo c)) ->
  (forall c, outcome (echo c) = inr tt) ->
  ends endpoint normalize echo self options
    (dispatch endpoint normalize echo self options).
Proof.
  intros Hn He He'.
  pose proof (run_dispatch endpoint normalize echo self options [] Hn He He') as Hrun.
  unfold ends. cbv zeta in *.
  set (run := dispatch endpoint normalize echo self options) in *.
  change (outcome run) with (fst (run [])). change (effects run) with (snd (run [])).
  destruct (outcome (normalize _)) as [e | o2] eqn:Ho.
  { left. exists e. rewrite Hrun. eauto. }
  set (body := JSON.stringify (json_of_options o2)) in *.
  destruct (Z.gtb_spec (Js.length body) (1024 * 1024)) as [Hgt | Hle].
  { left. exists (too_large body). rewrite Hrun. split; [done |]. split; [done |].
    right. exists o2. fold body. split; [done |]. split; [lia | done]. }
  right.
  destruct (post_settles endpoint self (fst (extractHeaders options)) body
              (([] ++ effects (normalize (snd (extractHeaders options))))
                 ++ effects (echo body)))
    as (r & ev & Hpost & Hs).
  rewrite Hpost in Hrun. exists o2, r, ev. fold body. rewrite Hrun. done.
Qed.

Lemma Index_send_ends self options :
  ends Index.API_ENDPOINT handleAttachments echo_body self options
    (Index.send self options).
Proof.
  apply (dispatch_ends Index.API_ENDPOINT handleAttachments echo_body).
  - apply Writer_handleAttachments.
  - intros c. apply Writer_emit.
  - done.
Qed.

Lemma IndexReact_send_ends self options :
  ends IndexReact.API_ENDPOINT normalize_react echo_nothing self options
    (IndexReact.send self options).
Proof.
  pose proof (dispatch_ends IndexReact.API_ENDPOINT normalize_react echo_nothing
                self options Writer_normalize_react
                (fun c => Writer_ret tt) (fun c => eq_refl)) as H.
  unfold ends, outcome, effects in *. by rewrite !IndexReact_send_dispatch.
Qed.

Lemma requests_app tr1 tr2 : requests (tr1 ++ tr2) = requests tr1 ++ requests tr2.
Proof. apply omap_app. Qed.

Lemma error_reports_app tr1 tr2 :
  error_reports (tr1 ++ tr2) = error_reports tr1 ++ error_reports tr2.
Proof. apply omap_app. Qed.

Lemma settles_requests res r ev url init :
  settles res r ev -> requests [Fetch url init; ev] = [(url, init)].
Proof. by destruct 1. Qed.

Lemma harmless_not_fetch tr url init : Forall harmless tr -> Fetch url init ∉ tr.
Proof. intros H Hin. rewrite Forall_forall in H. apply (H _ Hin). Qed.

Section Ends.

Variables (endpoint : string)
  (normalize : EmailOptions Template -> M (EmailOptions Template))
  (echo : string -> M unit) (self : Shoutbox) (options : EmailOptions Template)
  (run : M unit).

Hypothesis Hreads : forall o, Emits reading (normalize o).
Hypothesis Hecho : forall c, Forall harmless (effects (echo c)).
Hypothesis Hends : ends endpoint normalize echo self options run.

Lemma ends_requests_once : requests_once endpoint run.
Proof.
  unfold requests_once.
  destruct Hends as [(e & Ho & Htr & _) | (o2 & r & ev & Hn & Hlen & Ho & Htr & Hs)].
  - rewrite Ho, Htr. left.
    pose proof (reading_harmless _ (Emits_effects _ _ (Hreads (snd (extractHeaders options))))).
    by rewrite harmless_requests, harmless_error_reports.
  - rewrite Ho, Htr, requests_app, error_reports_app.
    assert (Hpre : Forall harmless
                     (effects (normalize (snd (extractHeaders options)))
                        ++ effects (echo (JSON.stringify (json_of_options o2))))).
    { apply Forall_app. split; [| apply Hecho].
      apply reading_harmless, Emits_effects, Hreads. }
    rewrite (harmless_requests _ Hpre), (harmless_error_reports _ Hpre).
    rewrite (settles_requests _ _ _ _ _ Hs). simpl.
    destruct Hs; eauto 10.
Qed.

Lemma ends_request url init :
  Fetch url init ∈ effects run ->
  exists o2 pre ev,
    outcome (normalize (snd (extractHeaders options))) = inr o2
    /\ (Js.length (JSON.stringify (json_of_options o2)) <= 1024 * 1024)%Z
    /\ url = endpoint
    /\ init = requestInit self (fst (extractHeaders options))
                (JSON.stringify (json_of_options o2))
    /\ pre = effects (normalize (snd (extractHeaders options)))
               ++ effects (echo (JSON.stringify (json_of_options o2)))
    /\ effects run = pre ++ [Fetch url init; ev]
    /\ settles (fetch url init) (outcome run) ev.
Proof.
  intros Hin.
  destruct Hends as [(e & Ho & Htr & _) | (o2 & r & ev & Hn & Hlen & Ho & Htr & Hs)].
  - exfalso. rewrite Htr in Hin. revert Hin. apply harmless_not_fetch.
    apply reading_harmless, Emits_effects, Hreads.
  - rewrite Htr in Hin. apply elem_of_app in Hin as [Hin | Hin].
    { exfalso. revert Hin. apply harmless_not_fetch.
      apply Forall_app. split; [| apply Hecho].
      apply reading_harmless, Emits_effects, Hreads. }
    apply elem_of_cons in Hin as [Heq | Hin].
    + injection Heq as -> ->. eexists o2, _, ev. rewrite Ho. done.
    + apply list_elem_of_singleton in Hin. subst ev. inversion Hs.
Qed.

Lemma ends_response url init :
  Fetch url init ∈ effects run -> response_decides run url init.
Proof.
  intros Hin.
  destruct (ends_request url init Hin) as (o2 & pre & ev & _ & _ & _ & _ & _ & Htr & Hs).
  assert (Hlast : last (effects run) = Some ev).
  { rewrite Htr, last_app. done. }
  unfold response_decides, rejected_and_reported. rewrite Hlast.
  repeat split; intros; inversion Hs; subst; congruence.
Qed.

End Ends.

Lemma harmless_echo_body c : Forall harmless (effects (echo_body c)).
Proof. repeat constructor. Qed.

Lemma harmless_echo_nothing c : Forall harmless (effects (echo_nothing c)).
Proof. constructor. Qed.

Lemma Index_requests_once self options :
  requests_once Index.API_ENDPOINT (Index.send self options).
Proof.
  eapply ends_requests_once;
    [apply reading_handleAttachments | apply harmless_echo_body | apply Index_send_ends].
Qed.

Lemma IndexReact_requests_once self options :
  requests_once IndexReact.API_ENDPOINT (IndexReact.send self options).
Proof.
  eapply ends_requests_once;
    [apply reading_normalize_react | apply harmless_echo_nothing
    | apply IndexReact_send_ends].
Qed.

(** X1.  A send, in either revision of [index.ts], makes at most one request,
    by POST to the endpoint.  A fulfilled send made exactly one.  A rejected
    send either made none and reported nothing (the failure is local: a
    file, the rendering, the size), or made one and reported, once, behind
    [Error during fetch operation:], the very error it is rejected with. *)
Theorem send_requests_once self options :
  requests_once Index.API_ENDPOINT (Index.send self options)
  /\ requests_once IndexReact.API_ENDPOINT (IndexReact.send self options).
Proof.
  split; [apply Index_requests_once | apply IndexReact_requests_once].
Qed.

(** X2.  Once the request is made, the answer decides the send: a failure
    of [fetch], a 2xx answer whose body is not JSON and a non-2xx answer
    whose text cannot be read all reject the send with that very error,
    reported last behind [Error during fetch operation:]; a 2xx answer
    with a JSON body fulfils it, ending with the success message. *)
Theorem response_settles_the_send self options url init :
  (Fetch url init ∈ effects (Index.send self options) ->
   response_decides (Index.send self options) url init)
  /\ (Fetch url init ∈ effects (IndexReact.send self options) ->
      response_decides (IndexReact.send self options) url init).
Proof.
  split.
  - eapply ends_response;
      [apply reading_handleAttachments | apply harmless_echo_body | apply Index_send_ends].
  - eapply ends_response;
      [apply reading_normalize_react | apply harmless_echo_nothing
      | apply IndexReact_send_ends].
Qed.

Lemma same_envelope_trans (o1 o2 o3 : EmailOptions Template) :
  same_envelope o1 o2 -> same_envelope o2 o3 -> same_envelope o1 o3.
Proof. unfold same_envelope. intuition congruence. Qed.

Lemma extractHeaders_envelope (o : EmailOptions Template) :
  same_envelope o (snd (extractHeaders o)) /\ html (snd (extractHeaders o)) = html o.
Proof. unfold extractHeaders, same_envelope. by destruct (headers o). Qed.

Lemma forEach_length {A B} (f : A -> M B) (l : list A) (l' : list B) :
  outcome (forEach f l) = inr l' -> length l' = length l.
Proof.
  unfold outcome. destruct (forEach f l []) as [r tr] eqn:Hrun. simpl. intros ->.
  symmetry. eapply Forall2_length, forEach_Forall2, Hrun.
Qed.

Lemma handleAttachments_envelope (o o' : EmailOptions Template) :
  outcome (handleAttachments o) = inr o' ->
  same_envelope o o' /\ html o' = html o.
Proof.
  unfold handleAttachments. destruct (attachments o) as [l |] eqn:Hl.
  - unfold outcome. rewrite run_bind by apply Writer_forEach, Writer_handleAttachment.
    destruct (outcome (forEach handleAttachment l)) as [e | l'] eqn:Hrun; [done |].
    intros [= <-]. unfold same_envelope. simpl. rewrite Hl. simpl.
    by rewrite (forEach_length _ _ _ Hrun).
  - intros [= <-]. unfold same_envelope. by rewrite Hl.
Qed.

Lemma renderReact_envelope (o o' : EmailOptions Template) :
  outcome (IndexReact.renderReact o) = inr o' ->
  same_envelope o o' /\ (react o = None -> html o' = html o).
Proof.
  unfold outcome, IndexReact.renderReact. destruct (react o) as [t |] eqn:Hr.
  - unfold bind, emit, lift. simpl. destruct (render t); [done |].
    intros [= <-]. unfold same_envelope. simpl. by rewrite Hr.
  - intros [= <-]. unfold same_envelope. by rewrite Hr.
Qed.

Lemma normalize_react_envelope (o o' : EmailOptions Template) :
  outcome (normalize_react o) = inr o' ->
  same_envelope o o' /\ (react o = None -> html o' = html o).
Proof.
  unfold outcome, normalize_react. rewrite run_bind by apply Writer_renderReact.
  destruct (outcome (IndexReact.renderReact o)) as [e | o1] eqn:Hr; [done |].
  rewrite Writer_handleAttachments. simpl. intros Ho'.
  apply handleAttachments_envelope in Ho' as [He Hh].
  apply renderReact_envelope in Hr as [He1 Hh1].
  split; [by eapply same_envelope_trans |].
  intros Hnone. rewrite Hh. by apply Hh1.
Qed.

(** X3.  The body of a request is the serialization of options that hold
    the caller's [from], [name], [to], [subject], [text], [react],
    [replyTo], [tags] and [cc] as they were given and as many attachments
    as were given.  The older revision leaves [html] as given too, whether
    or not a template is set; the revision that renders leaves it as given
    when no template is set. *)
Theorem request_body_keeps_the_envelope self options url init :
  (Fetch url init ∈ effects (Index.send self options) ->
   exists o2, RequestInit.body init = JSON.stringify (json_of_options o2)
              /\ same_envelope options o2 /\ html o2 = html options)
  /\ (Fetch url init ∈ effects (IndexReact.send self options) ->
      exists o2, RequestInit.body init = JSON.stringify (json_of_options o2)
                 /\ same_envelope options o2
                 /\ (react options = None -> html o2 = html options)).
Proof.
  destruct (extractHeaders_envelope options) as [He Hh].
  split; intros Hin.
  - eapply ends_request in Hin;
      [| apply reading_handleAttachments | apply harmless_echo_body
       | apply Index_send_ends].
    destruct Hin as (o2 & pre & ev & Hn & _ & _ & -> & _).
    apply handleAttachments_envelope in Hn as [He2 Hh2].
    exists o2. split; [done |]. split; [by eapply same_envelope_trans | congruence].
  - eapply ends_request in Hin;
      [| apply reading_normalize_react | apply harmless_echo_nothing
       | apply IndexReact_send_ends].
    destruct Hin as (o2 & pre & ev & Hn & _ & _ & -> & _).
    apply normalize_react_envelope in Hn as [He2 Hh2].
    exists o2. split; [done |]. split; [by eapply same_envelope_trans |].
    intros Hnone. rewrite Hh2; [done |]. by rewrite extractHeaders_react.
Qed.

Lemma ends_too_large endpoint normalize echo self options run o2 :
  (forall o, Emits reading (normalize o)) ->
  ends endpoint normalize echo self options run ->
  outcome (normalize (snd (extractHeaders options))) = inr o2 ->
  (Js.length (JSON.stringify (json_of_options o2)) > 1024 * 1024)%Z ->
  outcome run = inl (too_large (JSON.stringify (json_of_options o2)))
  /\ Forall reading (effects run).
Proof.
  intros Hreads [(e & Ho & Htr & Hwhy) | (o2' & r & ev & Hn' & Hlen' & _)] Hn Hlen.
  - rewrite Ho, Htr. split; [| apply Emits_effects, Hreads].
    destruct Hwhy as [Hwhy | (o2' & Hn' & _ & ->)]; congruence.
  - rewrite Hn in Hn'. injection Hn' as <-. lia.
Qed.

(** X4.  The size limit, in code units, from both sides: no request ever
    carries a body of more than 1,048,576 code units; and options whose
    serialization, once normalized, is longer are refused with the size
    error that states the count, after the files were read and before
    anything is logged or requested. *)
Theorem the_size_limit_is_enforced self options :
  ((forall url init,
      Fetch url init ∈ effects (Index.send self options) ->
      (Js.length (RequestInit.body init) <= 1024 * 1024)%Z)
   /\ (forall o2,
         outcome (handleAttachments (snd (extractHeaders options))) = inr o2 ->
         (Js.length (JSON.stringify (json_of_options o2)) > 1024 * 1024)%Z ->
         outcome (Index.send self options)
         = inl (too_large (JSON.stringify (json_of_options o2)))
         /\ Forall reading (effects (Index.send self options))))
  /\ ((forall url init,
         Fetch url init ∈ effects (IndexReact.send self options) ->
         (Js.length (RequestInit.body init) <= 1024 * 1024)%Z)
      /\ (forall o2,
            outcome (normalize_react (snd (extractHeaders options))) = inr o2 ->
            (Js.length (JSON.stringify (json_of_options o2)) > 1024 * 1024)%Z ->
            outcome (IndexReact.send self options)
            = inl (too_large (JSON.stringify (json_of_options o2)))
            /\ Forall reading (effects (IndexReact.send self options)))).
Proof.
  split; split.
  - intros url init Hin. eapply ends_request in Hin;
      [| apply reading_handleAttachments | apply harmless_echo_body
       | apply Index_send_ends].
    by destruct Hin as (o2 & pre & ev & _ & Hlen & _ & -> & _).
  - intros o2. eapply ends_too_large;
      [apply reading_handleAttachments | apply Index_send_ends].
  - intros url init Hin. eapply ends_request in Hin;
      [| apply reading_normalize_react | apply harmless_echo_nothing
       | apply IndexReact_send_ends].
    by destruct Hin as (o2 & pre & ev & _ & Hlen & _ & -> & _).
  - intros o2. eapply ends_too_large;
      [apply reading_normalize_react | apply IndexReact_send_ends].
Qed.

(** X5.  The older revision writes the whole request body to the console,
    by [console.log], immediately before it makes the request, and nothing
    but reads precedes that.  The revision that renders never logs the
    body: all it ever passes to [console.log] is the success message with
    the parsed answer. *)
Theorem body_is_echoed_before_the_request self options url init :
  (Fetch url init ∈ effects (Index.send self options) ->
   exists pre ev,
     effects (Index.send self options)
     = pre ++ [ConsoleLog [VStr (RequestInit.body init)]; Fetch url init; ev]
     /\ Forall reading pre)
  /\ (forall args,
        ConsoleLog args ∈ effects (IndexReact.send self options) ->
        exists j, args = [VStr "Email sent successfully:"; VJson j]).
Proof.
  split.
  - intros Hin. eapply ends_request in Hin;
      [| apply reading_handleAttachments | apply harmless_echo_body
       | apply Index_send_ends].
    destruct Hin as (o2 & pre & ev & _ & _ & _ & -> & -> & Htr & _).
    eexists _, ev. split.
    + rewrite Htr. unfold echo_body, effects at 2. simpl. by rewrite <- app_assoc.
    + apply Emits_effects, reading_handleAttachments.
  - intros args Hin.
    destruct (IndexReact_send_ends self options)
      as [(e & _ & Htr & _) | (o2 & r & ev & _ & _ & _ & Htr & Hs)];
      rewrite Htr in Hin.
    + exfalso. pose proof (Emits_effects _ _ (reading_normalize_react
                             (snd (extractHeaders options)))) as Hr.
      rewrite Forall_forall in Hr. apply (Hr _ Hin).
    + unfold echo_nothing, effects at 2 in Hin. simpl in Hin.
      rewrite app_nil_r in Hin. apply elem_of_app in Hin as [Hin | Hin].
      { exfalso. pose proof (Emits_effects _ _ (reading_normalize_react
                               (snd (extractHeaders options)))) as Hr.
        rewrite Forall_forall in Hr. apply (Hr _ Hin). }
      apply elem_of_cons in Hin as [Heq | Hin]; [done |].
      apply list_elem_of_singleton in Hin. subst ev. inversion Hs; eauto.
Qed.

End Shape.

(** ** The attachment loops *)

Section Reads.

Context {Template : Type} `{!Collaborators Template}.

Lemma handleAttachment_reads_one e : reads_one (handleAttachment e) e.
Proof.
  unfold reads_one, file_needed, handleAttachment, outcome, effects.
  destruct (content_truthy (content e)).
  - unfold bind, ret. simpl. eauto.
  - unfold bind, emit, lift, ret. simpl. destruct (readFile (filepath e)); simpl; eauto.
Qed.

Lemma processAttachment_reads_one e : reads_one (Smtp.processAttachment e) e.
Proof.
  unfold reads_one, file_needed, Smtp.processAttachment, outcome, effects.
  destruct (content_truthy (content e)).
  - unfold bind, ret. simpl. eauto.
  - unfold bind, emit, lift, ret. simpl. destruct (readFile (filepath e)); simpl; eauto.
Qed.

Lemma forEach_cons_run {A B} (f : A -> M B) a r :
  (forall a, Writer (f a)) ->
  outcome (forEach f (a :: r))
  = match outcome (f a) with
    | inl e => inl e
    | inr b => match outcome (forEach f r) with
               | inl e => inl e
               | inr bs => inr (b :: bs)
               end
    end
  /\ effects (forEach f (a :: r))
     = match outcome (f a) with
       | inl _ => effects (f a)
       | inr _ => effects (f a) ++ effects (forEach f r)
       end.
Proof.
  intros Hf. unfold outcome at 1, effects at 1. simpl.
  rewrite run_bind by apply Hf.
  destruct (outcome (f a)) as [e | b]; [done |].
  rewrite run_bind by apply Writer_forEach, Hf.
  by destruct (outcome (forEach f r)).
Qed.

Lemma forEach_reads_in_order {B} (f : Attachment -> M B) l :
  (forall a, Writer (f a)) ->
  (forall a, reads_one (f a) a) ->
  reads_in_order (forEach f l) l.
Proof.
  intros Hw Hf. induction l as [| a r IH].
  { unfold reads_in_order. simpl. repeat split; eauto; done. }
  destruct (forEach_cons_run f a r Hw) as [Ho Htr].
  unfold reads_in_order. rewrite Ho, Htr. clear Ho Htr.
  destruct IH as (IH1 & IH2 & IH3 & IH4).
  specialize (Hf a). unfold reads_one in Hf. unfold files_needed in *. simpl.
  destruct (file_needed a) as [p |]; simpl.
  - destruct Hf as [-> Hf]. destruct (readFile p) as [err | b] eqn:Hp.
    + rewrite Hf. repeat split.
      * by apply prefix_cons, prefix_nil.
      * intros (bs & ?). done.
      * intros HF. apply Forall_cons in HF as [(b & Hb) _]. congruence.
      * intros (bs & ?). done.
      * intros e [= <-]. eauto.
    + destruct Hf as (b' & ->). simpl. repeat split.
      * by apply prefix_cons.
      * intros (bs & Hbs). apply Forall_cons. split; [eauto |]. apply IH2.
        destruct (outcome (forEach f r)); [done | eauto].
      * intros HF. apply Forall_cons in HF as [_ HF]. apply IH2 in HF as (bs & ->).
        eauto.
      * intros (bs & Hbs). f_equal. apply IH3.
        destruct (outcome (forEach f r)); [done | eauto].
      * intros e He. destruct (outcome (forEach f r)) as [e' |] eqn:Hr; [| done].
        injection He as ->. destruct (IH4 _ eq_refl) as (q & Hlast & Hq).
        exists q. split; [| done].
        destruct (effects (forEach f r)); [done |]. done.
  - destruct Hf as [-> (b' & ->)]. simpl. repeat split.
    + done.
    + intros (bs & Hbs). apply IH2.
      destruct (outcome (forEach f r)); [done | eauto].
    + intros HF. apply IH2 in HF as (bs & ->). eauto.
    + intros (bs & Hbs). apply IH3.
      destruct (outcome (forEach f r)); [done | eauto].
    + intros e He. destruct (outcome (forEach f r)) as [e' |] eqn:Hr; [| done].
      injection He as ->. by apply IH4.
Qed.

(** X6.  The attachment loop of either transport reads exactly the files
    of the attachments whose content is absent or the empty string, in the
    order of the list, and stops at the first file that cannot be read:
    the files read are a prefix of the files needed; the loop is fulfilled
    exactly when every file needed can be read, and then it has read them
    all; when it is rejected, the error is that of the last file it tried. *)
Theorem attachment_files_are_read_in_order (l : list Attachment) :
  reads_in_order (forEach handleAttachment l) l
  /\ reads_in_order (forEach Smtp.processAttachment l) l.
Proof.
  split; apply forEach_reads_in_order.
  - apply Writer_handleAttachment.
  - apply handleAttachment_reads_one.
  - apply Writer_processAttachment.
  - apply processAttachment_reads_one.
Qed.

End Reads.


(** ** Traces of the SMTP client *)

Section SmtpShape.

Context {Template : Type} `{!Collaborators Template}.

Lemma Smtp_sendEmail_run self options :
  Smtp.sendEmail self options []
  = match outcome (Smtp.renderReact options) with
    | inl e => (inl e, effects (Smtp.renderReact options) ++ [smtp_error e])
    | inr o1 =>
        let loop := forEach Smtp.processAttachment (default [] (attachments o1)) in
        let pre := effects (Smtp.renderReact options) ++ effects loop in
        match outcome loop with
        | inl e => (inl e, pre ++ [smtp_error e])
        | inr atts =>
            let mail := Smtp.mailOptions o1 atts in
            match sendMail (Smtp.transporter self) mail with
            | inl e => (inl e, pre ++ [SendMail (Smtp.transporter self) mail; smtp_error e])
            | inr _ => (inr tt, pre ++ [SendMail (Smtp.transporter self) mail])
            end
        end
    end.
Proof.
  unfold Smtp.sendEmail, try_catch.
  rewrite run_bind by apply Writer_Smtp_renderReact. simpl.
  destruct (outcome (Smtp.renderReact options)) as [e | o1]; [done |].
  rewrite run_bind by apply Writer_forEach, Writer_processAttachment.
  destruct (outcome (forEach _ _)) as [e | atts]; [done |].
  unfold bind, emit, lift. simpl.
  destruct (sendMail _ _) as [e | []]; simpl; by rewrite <- ?app_assoc.
Qed.

Lemma reading_Smtp_renderReact o : Emits reading (Smtp.renderReact o).
Proof. unfold Smtp.renderReact. emits. Qed.

Lemma reading_processAttachments l : Emits reading (forEach Smtp.processAttachment l).
Proof. unfold Smtp.processAttachment. emits. Qed.

Lemma submissions_app tr1 tr2 :
  submissions (tr1 ++ tr2) = submissions tr1 ++ submissions tr2.
Proof. apply omap_app. Qed.

Lemma harmless_submissions tr : Forall harmless tr -> submissions tr = [].
Proof. induction 1 as [| ev tr Hev _ IH]; [done |]. by destruct ev. Qed.

Lemma Smtp_submissions_count self (options : EmailOptions Template) :
  length (submissions (effects (Smtp.sendEmail self options))) <= 1
  /\ (outcome (Smtp.sendEmail self options) = inr tt ->
      length (submissions (effects (Smtp.sendEmail self options))) = 1).
Proof.
  unfold outcome, effects. rewrite Smtp_sendEmail_run.
  pose proof (reading_harmless _ (Emits_effects _ _ (reading_Smtp_renderReact options)))
    as Hr.
  destruct (outcome (Smtp.renderReact options)) as [e | o1]; simpl.
  { rewrite submissions_app, (harmless_submissions _ Hr). simpl. split; [lia | done]. }
  pose proof (reading_harmless _ (Emits_effects _ _
                (reading_processAttachments (default [] (attachments o1))))) as Hl.
  destruct (outcome (forEach _ _)) as [e | atts]; simpl.
  { rewrite !submissions_app, (harmless_submissions _ Hr), (harmless_submissions _ Hl).
    simpl. split; [lia | done]. }
  destruct (sendMail _ _) as [e | []]; simpl;
    rewrite !submissions_app, (harmless_submissions _ Hr), (harmless_submissions _ Hl);
    simpl; split; (lia || done).
Qed.

(** X7.  A call of [SMTPClient.sendEmail] submits at most one message and
    makes no HTTP request.  When it submitted a message it settles exactly
    as [sendMail] did on it; when it submitted none it is rejected.  Every
    rejection, whatever its cause, is reported once by [console.error]
    behind [SMTP Error:], as the last event, with the error the call is
    rejected with; a fulfilled call reports nothing and ends with the
    submission. *)
Theorem sendEmail_submits_once self (options : EmailOptions Template) :
  submits_once self (Smtp.sendEmail self options).
Proof.
  unfold submits_once, outcome at 1 2 3, effects at 1 2 3 4 5 6 7.
  rewrite Smtp_sendEmail_run.
  pose proof (reading_harmless _ (Emits_effects _ _ (reading_Smtp_renderReact options)))
    as Hr.
  destruct (outcome (Smtp.renderReact options)) as [e | o1]; simpl.
  { rewrite submissions_app, error_reports_app, requests_app, last_app.
    rewrite (harmless_submissions _ Hr), (harmless_error_reports _ Hr),
      (harmless_requests _ Hr). simpl. eauto 10. }
  pose proof (reading_harmless _ (Emits_effects _ _
                (reading_processAttachments (default [] (attachments o1))))) as Hl.
  assert (Hpre : Forall harmless
                   (effects (Smtp.renderReact options)
                      ++ effects (forEach Smtp.processAttachment
                                    (default [] (attachments o1)))))
    by (by apply Forall_app).
  destruct (outcome (forEach _ _)) as [e | atts]; simpl.
  { rewrite submissions_app, error_reports_app, requests_app, last_app.
    rewrite (harmless_submissions _ Hpre), (harmless_error_reports _ Hpre),
      (harmless_requests _ Hpre). simpl. eauto 10. }
  destruct (sendMail _ _) as [e | []] eqn:Hsend; simpl;
    rewrite submissions_app, error_reports_app, requests_app, last_app;
    rewrite (harmless_submissions _ Hpre), (harmless_error_reports _ Hpre),
      (harmless_requests _ Hpre); simpl.
  - split; [right; eauto |]. done.
  - split; [right; eauto |]. eauto.
Qed.

End SmtpShape.


(** ** Files that cannot be read *)

Section Unreadable.

Context {Template : Type} `{!Collaborators Template}.

Lemma forEach_unreadable {B} (f : Attachment -> M B) l :
  reads_in_order (forEach f l) l ->
  unreadable l ->
  exists e, outcome (forEach f l) = inl e /\ read_error l e.
Proof.
  intros (Hpre & Hok & _ & Herr) Hex.
  destruct (outcome (forEach f l)) as [e | bs] eqn:Ho.
  - exists e. split; [done |]. destruct (Herr e eq_refl) as (p & Hlast & Hp).
    exists p. split; [| done].
    apply last_Some_elem_of in Hlast.
    destruct Hpre as [k Hk].
    assert (Hin : ReadFile p ∈ ReadFile <$> files_needed l).
    { rewrite Hk. apply elem_of_app. by left. }
    apply list_elem_of_fmap in Hin as (q & [= ->] & Hq). done.
  - exfalso. assert (HF : Forall (fun p => exists b, readFile p = inr b) (files_needed l)).
    { apply Hok. eauto. }
    unfold unreadable in Hex. rewrite Exists_exists in Hex.
    destruct Hex as (p & Hp & e & He). rewrite Forall_forall in HF.
    destruct (HF p Hp) as (b & Hb). congruence.
Qed.

Lemma extractHeaders_attachments (o : EmailOptions Template) :
  attachments (snd (extractHeaders o)) = attachments o.
Proof. unfold extractHeaders. by destruct (headers o). Qed.

Lemma handleAttachments_unreadable (o : EmailOptions Template) l :
  attachments o = Some l -> unreadable l ->
  exists e, outcome (handleAttachments o) = inl e /\ read_error l e.
Proof.
  intros Hl Hex. unfold handleAttachments, outcome. rewrite Hl.
  rewrite run_bind by apply Writer_forEach, Writer_handleAttachment.
  destruct (forEach_unreadable handleAttachment l) as (e & -> & He); [| done | eauto].
  apply forEach_reads_in_order;
    [apply Writer_handleAttachment | apply handleAttachment_reads_one].
Qed.

Lemma renderReact_attachments (o o1 : EmailOptions Template) :
  outcome (IndexReact.renderReact o) = inr o1 -> attachments o1 = attachments o.
Proof.
  unfold outcome, IndexReact.renderReact. destruct (react o) as [t |].
  - unfold bind, emit, lift. simpl. destruct (render t); [done |]. by intros [= <-].
  - by intros [= <-].
Qed.

Lemma renderReact_error (o : EmailOptions Template) e :
  outcome (IndexReact.renderReact o) = inl e -> render_error o e.
Proof.
  unfold outcome, IndexReact.renderReact, render_error. destruct (react o) as [t |].
  - unfold bind, emit, lift. simpl. destruct (render t) eqn:Hr; [| done].
    intros [= <-]. eauto.
  - done.
Qed.

Lemma Smtp_renderReact_attachments (o o1 : EmailOptions Template) :
  outcome (Smtp.renderReact o) = inr o1 -> attachments o1 = attachments o.
Proof.
  unfold outcome, Smtp.renderReact. destruct (react o) as [t |].
  - unfold bind, emit, lift. simpl. destruct (render t); [done |]. by intros [= <-].
  - by intros [= <-].
Qed.

Lemma Smtp_renderReact_error (o : EmailOptions Template) e :
  outcome (Smtp.renderReact o) = inl e -> render_error o e.
Proof.
  unfold outcome, Smtp.renderReact, render_error. destruct (react o) as [t |].
  - unfold bind, emit, lift. simpl. destruct (render t) eqn:Hr; [| done].
    intros [= <-]. eauto.
  - done.
Qed.

Lemma normalize_react_unreadable (o : EmailOptions Template) l :
  attachments o = Some l -> unreadable l ->
  exists e, outcome (normalize_react o) = inl e
            /\ (read_error l e \/ render_error o e).
Proof.
  intros Hl Hex. unfold normalize_react, outcome.
  rewrite run_bind by apply Writer_renderReact.
  destruct (outcome (IndexReact.renderReact o)) as [e | o1] eqn:Hr.
  - exists e. split; [done |]. right. by apply renderReact_error.
  - rewrite Writer_handleAttachments. simpl.
    destruct (handleAttachments_unreadable o1 l) as (e & He & Hp); [| done | eauto].
    by rewrite (renderReact_attachments _ _ Hr).
Qed.

(** X8.  When a file that the attachment loop needs cannot be read, the
    message is not sent, on any path.  The HTTP sends are rejected after
    reads only: no request, nothing logged; the error is that of a file
    needed (in the revision that renders it may also be that of the
    rendering, which comes first).  The SMTP send is rejected with no
    submission, and the error is reported behind [SMTP Error:]. *)
Theorem unreadable_attachment_stops_the_send (self : Shoutbox) (smtp : Smtp.SMTPClient)
    (options : EmailOptions Template) (l : list Attachment) :
  attachments options = Some l ->
  unreadable l ->
  (exists e, outcome (Index.send self options) = inl e
             /\ read_error l e
             /\ Forall reading (effects (Index.send self options)))
  /\ (exists e, outcome (IndexReact.send self options) = inl e
                /\ (read_error l e \/ render_error options e)
                /\ Forall reading (effects (IndexReact.send self options)))
  /\ (exists e, outcome (Smtp.sendEmail smtp options) = inl e
                /\ (read_error l e \/ render_error options e)
                /\ submissions (effects (Smtp.sendEmail smtp options)) = []
                /\ last (effects (Smtp.sendEmail smtp options)) = Some (smtp_error e)).
Proof.
  intros Hl Hex. split; [| split].
  - destruct (handleAttachments_unreadable (snd (extractHeaders options)) l)
      as (e & He & Hp); [by rewrite extractHeaders_attachments | done |].
    destruct (Index_send_ends self options)
      as [(e' & Ho & Htr & Hwhy) | (o2 & r & ev & Hn & _)]; [| congruence].
    exists e'. rewrite Htr. split; [done |].
    split; [| apply Emits_effects, reading_handleAttachments].
    destruct Hwhy as [Hwhy | (o2 & Hn & _)]; congruence.
  - destruct (normalize_react_unreadable (snd (extractHeaders options)) l)
      as (e & He & Hp); [by rewrite extractHeaders_attachments | done |].
    destruct (IndexReact_send_ends self options)
      as [(e' & Ho & Htr & Hwhy) | (o2 & r & ev & Hn & _)]; [| congruence].
    exists e'. rewrite Htr. split; [done |].
    split; [| apply Emits_effects, reading_normalize_react].
    assert (e' = e) as -> by (destruct Hwhy as [Hwhy | (o2 & Hn & _)]; congruence).
    destruct Hp as [Hp | (t & Ht & Hrender)]; [by left |].
    right. exists t. by rewrite <- (extractHeaders_react options).
  - unfold outcome at 1, effects. rewrite Smtp_sendEmail_run.
    pose proof (reading_harmless _ (Emits_effects _ _ (reading_Smtp_renderReact options)))
      as Hr.
    destruct (outcome (Smtp.renderReact options)) as [e | o1] eqn:Ho; simpl.
    { exists e. split; [done |]. split; [right; by apply Smtp_renderReact_error |].
      rewrite submissions_app, last_app, (harmless_submissions _ Hr). done. }
    rewrite (Smtp_renderReact_attachments _ _ Ho), Hl. simpl.
    destruct (forEach_unreadable Smtp.processAttachment l) as (e & He & Hp); [| done |].
    { apply forEach_reads_in_order;
        [apply Writer_processAttachment | apply processAttachment_reads_one]. }
    rewrite He. simpl. exists e. split; [done |]. split; [by left |].
    pose proof (reading_harmless _ (Emits_effects _ _ (reading_processAttachments l)))
      as Hloop.
    rewrite !submissions_app, last_app, (harmless_submissions _ Hr),
      (harmless_submissions _ Hloop). done.
Qed.

End Unreadable.


(** ** Verification, envelope and batches *)

Section SmtpMore.

Context {Template : Type} `{!Collaborators Template}.

(** X9.  [verifyConnection] never rejects.  It is fulfilled with [true]
    exactly when [transporter.verify] succeeds, with the trace of the one
    verification; when the verification fails it reports the error behind
    [SMTP Connection Error:] and is fulfilled with [false].  It submits no
    message and makes no request. *)
Theorem verifyConnection_never_rejects (self : Smtp.SMTPClient) :
  let run := Smtp.verifyConnection self in
  (exists connected, outcome run = inr connected)
  /\ (outcome run = inr true <-> exists u, verify (Smtp.transporter self) = inr u)
  /\ (forall e, verify (Smtp.transporter self) = inl e ->
        effects run
        = [Verify (Smtp.transporter self);
           ConsoleError [VStr "SMTP Connection Error:"; VExn e]])
  /\ (outcome run = inr true -> effects run = [Verify (Smtp.transporter self)])
  /\ submissions (effects run) = []
  /\ requests (effects run) = [].
Proof.
  unfold Smtp.verifyConnection, outcome, effects, try_catch, bind, emit, lift, ret.
  simpl. destruct (verify (Smtp.transporter self)) as [e | u]; simpl.
  - split; [eauto |]. split; [split; [done | by intros [? ?]] |].
    split; [by intros ? [= ->] |]. done.
  - split; [eauto |]. split; [split; eauto |]. done.
Qed.

Lemma Smtp_renderReact_envelope (o o1 : EmailOptions Template) :
  outcome (Smtp.renderReact o) = inr o1 ->
  same_envelope o o1 /\ headers o1 = headers o /\ (react o = None -> html o1 = html o).
Proof.
  unfold outcome, Smtp.renderReact. destruct (react o) as [t |] eqn:Hr.
  - unfold bind, emit, lift. simpl. destruct (render t); [done |].
    intros [= <-]. unfold same_envelope. simpl. by rewrite Hr.
  - intros [= <-]. unfold same_envelope. by rewrite Hr.
Qed.

(** X10.  The message that [sendEmail] submits goes through the client's
    transporter and carries the caller's envelope: the sender, written
    [name <from>] when a non-empty name is given; the recipients, joined
    with a comma and a space; the copies, when given and not empty; the
    subject; the reply address; the custom headers, an empty object when
    none is given; one attachment for each attachment given; a non-empty
    [text] as given, never the stripped HTML; and the [html] as given when
    no template is set. *)
Theorem submitted_message_keeps_the_envelope (self : Smtp.SMTPClient)
    (options : EmailOptions Template) t mail :
  SendMail t mail ∈ effects (Smtp.sendEmail self options) ->
  t = Smtp.transporter self
  /\ Mail.from mail = match Js.truthy_opt (name options) with
                      | Some n => n +:+ " <" +:+ from options +:+ ">"
                      | None => from options
                      end
  /\ Mail.to mail = Smtp.join_addresses (to options)
  /\ Mail.cc mail = Smtp.join_addresses <$> Smtp.addresses_truthy (cc options)
  /\ Mail.subject mail = subject options
  /\ Mail.replyTo mail = replyTo options
  /\ Mail.headers mail = default ∅ (headers options)
  /\ length (Mail.attachments mail) = length (default [] (attachments options))
  /\ (forall s, text options = Some s -> s <> EmptyString -> Mail.text mail = Some s)
  /\ (react options = None -> Mail.html mail = html options).
Proof.
  intros Hin. apply Smtp_sendEmail_inv in Hin as (o1 & atts & Hr & Hloop & -> & ->).
  apply forEach_length in Hloop.
  pose proof (Smtp_renderReact_attachments _ _ Hr) as Hatt.
  apply Smtp_renderReact_envelope in Hr
    as ((Hfrom & Hname & Hto & Hsubject & Htext & _ & Hreply & _ & Hcc & _) & Hh & Hhtml).
  unfold Smtp.mailOptions. simpl.
  rewrite Hfrom, Hname, Hto, Hsubject, Hreply, Hcc, Hh, Hloop, Hatt, Htext.
  repeat split; try done.
  intros s -> Hs. by destruct s.
Qed.

Lemma sendMany_count {A X} (count : list event -> list X) (f : A -> M unit)
    (l : list A) :
  (forall tr1 tr2, count (tr1 ++ tr2) = count tr1 ++ count tr2) ->
  (forall a, Writer (f a)) ->
  (forall a, length (count (effects (f a))) <= 1) ->
  (forall a, outcome (f a) = inr tt -> length (count (effects (f a))) = 1) ->
  length (count (effects (sendMany f l))) <= length l
  /\ (forall vs, outcome (sendMany f l) = inr vs ->
        length (count (effects (sendMany f l))) = length l).
Proof.
  intros Happ Hw Hle Hok.
  destruct (sendMany_spec f l Hw) as (-> & Hall & _).
  assert (H0 : count [] = []).
  { pose proof (Happ [] []) as H0. simpl in H0. apply (f_equal length) in H0.
    rewrite length_app in H0. apply nil_length_inv. lia. }
  split.
  - clear Hall. induction l as [| a r IH]; simpl.
    + by rewrite H0.
    + rewrite Happ, length_app. specialize (Hle a). lia.
  - intros vs Hvs. apply Hall, fulfilled_map in Hvs as [Hvs _]. clear Hall.
    induction Hvs as [| a r Ha _ IH]; simpl.
    + by rewrite H0.
    + rewrite Happ, length_app, (Hok a Ha). lia.
Qed.

Lemma requests_once_count endpoint (run : M unit) :
  requests_once endpoint run ->
  length (requests (effects run)) <= 1
  /\ (outcome run = inr tt -> length (requests (effects run)) = 1).
Proof.
  unfold requests_once. destruct (outcome run) as [e | []].
  - intros [[-> _] | (init & -> & _)]; simpl; split; (lia || done).
  - intros (init & -> & _). simpl. split; [lia | done].
Qed.

(** X11.  [sendEmails] never sends a message twice: the requests of a
    batch, on either revision of the HTTP client, and the submissions of a
    batch of the SMTP client are at most as many as the messages, and
    exactly as many when the batch is fulfilled. *)
Theorem a_batch_sends_each_message_at_most_once (self : Shoutbox)
    (smtp : Smtp.SMTPClient) (l : list (EmailOptions Template)) :
  (length (requests (effects (Index.sendEmails self l))) <= length l
   /\ (forall vs, outcome (Index.sendEmails self l) = inr vs ->
         length (requests (effects (Index.sendEmails self l))) = length l))
  /\ (length (requests (effects (IndexReact.sendEmails self l))) <= length l
      /\ (forall vs, outcome (IndexReact.sendEmails self l) = inr vs ->
            length (requests (effects (IndexReact.sendEmails self l))) = length l))
  /\ (length (submissions (effects (Smtp.sendEmails smtp l))) <= length l
      /\ (forall vs, outcome (Smtp.sendEmails smtp l) = inr vs ->
            length (submissions (effects (Smtp.sendEmails smtp l))) = length l)).
Proof.
  split; [| split].
  - apply (sendMany_count requests (Index.send self) l).
    + apply requests_app.
    + apply Writer_Index_send.
    + intros a. eapply requests_once_count, Index_requests_once.
    + intros a. eapply requests_once_count, Index_requests_once.
  - apply (sendMany_count requests (IndexReact.send self) l).
    + apply requests_app.
    + apply Writer_IndexReact_send.
    + intros a. eapply requests_once_count, IndexReact_requests_once.
    + intros a. eapply requests_once_count, IndexReact_requests_once.
  - apply (sendMany_count submissions (Smtp.sendEmail smtp) l).
    + apply submissions_app.
    + apply Writer_Smtp_sendEmail.
    + intros a. apply Smtp_submissions_count.
    + intros a. apply Smtp_submissions_count.
Qed.

End SmtpMore.


(** ** Sending the same object again *)

Section Again.

Context {Template : Type} `{!Collaborators Template}.








End Again.

(** ** Tag stripping *)

Lemma after_gt_cons c r :
  Js.after_gt (String c r) = if Ascii.eqb c Js.gt then Some r else Js.after_gt r.
Proof. reflexivity. Qed.

Lemma has_tag_cons c r :
  has_tag (String c r)
  = (Ascii.eqb c Js.lt && match Js.after_gt r with Some _ => true | None => false end)
    || has_tag r.
Proof. reflexivity. Qed.

Lemma after_gt_length s rest :
  Js.after_gt s = Some rest -> String.length rest < String.length s.
Proof.
  revert rest. induction s as [| c r IH]; intros rest; [done |].
  rewrite after_gt_cons. destruct (Ascii.eqb c Js.gt).
  - intros [= ->]. simpl. lia.
  - intros H. apply IH in H. simpl. lia.
Qed.

Lemma Stripped_after_gt s t : Stripped s t -> Js.after_gt s = None -> Js.after_gt t = None.
Proof.
  induction 1 as [| c s t Hc _ IH | s rest t Hrest _ IH | s t Hopen _ IH]; [done | | |].
  - rewrite !after_gt_cons. destruct (Ascii.eqb c Js.gt); [done | apply IH].
  - rewrite after_gt_cons. destruct (Ascii.eqb Js.lt Js.gt); [done |]. congruence.
  - rewrite !after_gt_cons. destruct (Ascii.eqb Js.lt Js.gt); [done | apply IH].
Qed.

Lemma Stripped_no_tag s t : Stripped s t -> has_tag t = false.
Proof.
  induction 1 as [| c s t Hc Hs IH | s rest t Hrest _ IH | s t Hopen Hs IH];
    [done | | done |].
  - rewrite has_tag_cons, IH. apply Ascii.eqb_neq in Hc. by rewrite Hc.
  - rewrite has_tag_cons, IH, (Stripped_after_gt _ _ Hs Hopen).
    by rewrite andb_false_r.
Qed.

Lemma Stripped_length s t : Stripped s t -> String.length t <= String.length s.
Proof.
  induction 1 as [| c s t Hc _ IH | s rest t Hrest _ IH | s t Hopen _ IH];
    simpl; [done | lia | | lia].
  apply after_gt_length in Hrest. lia.
Qed.

Lemma stripHtml_without_tag s : has_tag s = false -> Smtp.stripHtml s = s.
Proof.
  induction s as [| c r IH]; [done |].
  rewrite has_tag_cons, stripHtml_cons. intros [Hc Hr]%orb_false_iff.
  rewrite (IH Hr). destruct (Ascii.eqb c Js.lt); [| done].
  by destruct (Js.after_gt r).
Qed.

(** X13.  What [stripHtml] returns holds no tag, that is, no ['<'] that a
    ['>'] follows; so stripping twice is stripping once.  The result is
    never longer than the text, and a text that holds no tag is returned
    as it is. *)
Theorem stripHtml_leaves_no_tag (s : string) :
  has_tag (Smtp.stripHtml s) = false
  /\ Smtp.stripHtml (Smtp.stripHtml s) = Smtp.stripHtml s
  /\ (Js.length (Smtp.stripHtml s) <= Js.length s)%Z
  /\ (has_tag s = false -> Smtp.stripHtml s = s).
Proof.
  pose proof (stripHtml_Stripped s) as Hs.
  split; [by eapply Stripped_no_tag |].
  split; [eapply stripHtml_without_tag, Stripped_no_tag, Hs |].
  split; [| apply stripHtml_without_tag].
  apply Stripped_length in Hs. unfold Js.length. lia.
Qed.

(** ** The key of a client *)

Section Constructors.

Context {Template : Type} `{!Collaborators Template}.


End Constructors.


(** ** Cleaning of rendered markup *)

Lemma remove_first_tag_absent opens s :
  occurs opens s = false -> Js.remove_first_tag opens s = s.
Proof.
  induction s as [| c r IH]; [done |].
  cbn [occurs Js.remove_first_tag]. intros [-> Hr]%orb_false_iff. by rewrite IH.
Qed.

Lemma remove_tags_absent opens s :
  occurs opens s = false -> Js.remove_tags opens s = s.
Proof.
  induction s as [| c r IH]; [done |].
  cbn [occurs]. rewrite remove_tags_cons. intros [-> Hr]%orb_false_iff. by rewrite IH.
Qed.

Lemma starts_with_cons a p b s :
  Js.starts_with (String a p) (String b s)
  = if Ascii.eqb a b then Js.starts_with p s else false.
Proof. reflexivity. Qed.

Lemma chars_cons c r : Js.chars (String c r) = c :: Js.chars r.
Proof. reflexivity. Qed.

Lemma replace_markers_absent s :
  Js.dollar ∉ Js.chars s -> IndexReact.replace_markers s = s.
Proof.
  induction s as [| c r IH]; [done |].
  rewrite chars_cons, not_elem_of_cons. intros [Hc Hr].
  cbn [IndexReact.replace_markers].
  change "$<"%string with (String Js.dollar "<").
  change ">$/"%string with (String Js.gt (String Js.dollar "/")).
  rewrite !starts_with_cons.
  destruct (Ascii.eqb_spec Js.dollar c) as [<- | _]; [done |].
  destruct (Ascii.eqb Js.gt c).
  - destruct r as [| d r']; [done |].
    rewrite starts_with_cons.
    destruct (Ascii.eqb_spec Js.dollar d) as [<- | _].
    + exfalso. apply Hr. rewrite chars_cons. by left.
    + by rewrite IH.
  - by rewrite IH.
Qed.

Lemma remove_markers_absent s :
  Js.dollar ∉ Js.chars s -> IndexReact.remove_markers s = s.
Proof.
  induction s as [| c r IH]; [done |].
  rewrite chars_cons, not_elem_of_cons. intros [Hc Hr].
  cbn [IndexReact.remove_markers].
  change "/$"%string with (String Js.slash (String Js.dollar "")).
  rewrite starts_with_cons.
  destruct (Ascii.eqb_spec c Js.dollar) as [-> | _]; [done |].
  destruct (Ascii.eqb Js.slash c).
  - destruct r as [| d r']; [done |].
    rewrite starts_with_cons.
    destruct (Ascii.eqb_spec Js.dollar d) as [<- | _].
    + exfalso. apply Hr. rewrite chars_cons. by left.
    + by rewrite IH.
  - by rewrite IH.
Qed.

(** X15.  On markup that holds no document type declaration, no [html]
    tag and no [$], [cleanRenderedHtml] does nothing but trim. *)
Theorem cleanRenderedHtml_only_trims_plain_markup (html : string) :
  occurs (Js.starts_with_ci "<!DOCTYPE") html = false ->
  occurs (fun s => Js.starts_with_ci "<html" s || Js.starts_with_ci "</html" s) html
  = false ->
  Js.dollar ∉ Js.chars html ->
  IndexReact.cleanRenderedHtml html = Js.trim html.
Proof.
  intros Hdoctype Hhtml Hdollar. unfold IndexReact.cleanRenderedHtml.
  rewrite (remove_first_tag_absent _ _ Hdoctype), (remove_tags_absent _ _ Hhtml).
  by rewrite (replace_markers_absent _ Hdollar), (remove_markers_absent _ Hdollar).
Qed.


(** ** The two transports *)

Section Agree.

Context {Template : Type} `{!Collaborators Template}.






(** X17.  A client built by [new SMTPClient(apiKey)] talks to one server
    only: every message it submits and every verification goes through
    the transport of host [mail.shoutbox.net], port 587, STARTTLS
    ([secure] false), user [shoutbox], password [apiKey], with certificate
    verification on. *)
Theorem every_exchange_uses_the_fixed_transport (apiKey : string)
    (self : Smtp.SMTPClient) :
  Smtp.new apiKey = inr self ->
  let fixed := {| host := "mail.shoutbox.net"; port := 587; secure := false;
                  user := "shoutbox"; pass := apiKey; rejectUnauthorized := true |} in
  (forall (options : EmailOptions Template) t mail,
     SendMail t mail ∈ effects (Smtp.sendEmail self options) -> t = fixed)
  /\ (forall t, Verify t ∈ effects (Smtp.verifyConnection self) -> t = fixed).
Proof.
  intros [= <-] fixed. split.
  - intros options t mail Hin.
    by apply Smtp_sendEmail_inv in Hin as (_ & _ & _ & _ & -> & _).
  - intros t. unfold Smtp.verifyConnection, effects, try_catch, bind, emit, lift, ret.
    simpl. destruct (verify _); simpl.
    + intros [[= ->] | Hin]%elem_of_cons; [done |].
      by apply list_elem_of_singleton in Hin.
    + by intros [= ->]%list_elem_of_singleton.
Qed.

End Agree.

(** ** The endpoint *)

Section Endpoint.

Context {Template : Type} `{!Collaborators Template}.

(** X18.  Every request is a POST.  The older revision sends it to
    [https://api.shoutbox.net/send]; the newer one to the value of
    [SHOUTBOX_API_ENDPOINT] when that variable is set, even to the empty
    string, and to the same default otherwise. *)
Theorem requests_go_to_the_configured_endpoint (self : Shoutbox)
    (options : EmailOptions Template) url init :
  (Fetch url init ∈ effects (Index.send self options) ->
   url = "https://api.shoutbox.net/send" /\ RequestInit.method init = "POST")
  /\ (Fetch url init ∈ effects (IndexReact.send self options) ->
      url = match env "SHOUTBOX_API_ENDPOINT" with
            | Some endpoint => endpoint
            | None => "https://api.shoutbox.net/send"
            end
      /\ RequestInit.method init = "POST").
Proof.
  split; intros Hin.
  - eapply ends_request in Hin;
      [| apply reading_handleAttachments | apply harmless_echo_body
       | apply Index_send_ends].
    by destruct Hin as (o2 & pre & ev & _ & _ & -> & -> & _).
  - eapply ends_request in Hin;
      [| apply reading_normalize_react | apply harmless_echo_nothing
       | apply IndexReact_send_ends].
    destruct Hin as (o2 & pre & ev & _ & _ & -> & -> & _).
    unfold IndexReact.API_ENDPOINT. by destruct (env "SHOUTBOX_API_ENDPOINT").
Qed.

End Endpoint.

(** ** The further properties at sample messages *)

(** At a service that accepts the message. *)
Lemma response_settles_the_send_witness :
  let world := platform accepted EmptyString in
  let message : EmailOptions unit := plain "Hello" (Some "<b>Hi</b>") in
  let init :=
    requestInit key ∅ (JSON.stringify (@json_of_options unit world message)) in
  @response_decides unit world (@Index.send unit world key message)
    "https://api.shoutbox.net/send" init.
Proof.
  intros world message init.
  apply (proj1 (@response_settles_the_send unit world key message
                  "https://api.shoutbox.net/send" init)).
  vm_compute. right. left.
Defined.

Lemma request_body_keeps_the_envelope_witness :
  let world := platform accepted EmptyString in
  let message : EmailOptions unit := plain "Hello" (Some "<b>Hi</b>") in
  let init :=
    requestInit key ∅ (JSON.stringify (@json_of_options unit world message)) in
  exists o2 : EmailOptions unit,
    RequestInit.body init = JSON.stringify (@json_of_options unit world o2)
    /\ same_envelope message o2 /\ html o2 = html message.
Proof.
  intros world message init.
  apply (proj1 (@request_body_keeps_the_envelope unit world key message
                  "https://api.shoutbox.net/send" init)).
  vm_compute. right. left.
Defined.

Lemma the_size_limit_is_enforced_witness :
  let world := platform accepted EmptyString in
  let message : EmailOptions unit := plain "Hello" (Some "<b>Hi</b>") in
  (Js.length (JSON.stringify (@json_of_options unit world message)) <= 1024 * 1024)%Z.
Proof.
  intros world message.
  apply (proj1 (proj1 (@the_size_limit_is_enforced unit world key message))
           "https://api.shoutbox.net/send"
           (requestInit key ∅ (JSON.stringify (@json_of_options unit world message)))).
  vm_compute. right. left.
Defined.

Lemma body_is_echoed_before_the_request_witness :
  let world := platform accepted EmptyString in
  let message : EmailOptions unit := plain "Hello" (Some "<b>Hi</b>") in
  let body := JSON.stringify (@json_of_options unit world message) in
  exists pre ev,
    effects (@Index.send unit world key message)
    = pre ++ [ConsoleLog [VStr body];
              Fetch "https://api.shoutbox.net/send" (requestInit key ∅ body); ev]
    /\ Forall reading pre.
Proof.
  intros world message body.
  apply (proj1 (@body_is_echoed_before_the_request unit world key message
                  "https://api.shoutbox.net/send" (requestInit key ∅ body))).
  vm_compute. right. left.
Defined.

(** At a message whose only attachment names a file that does not exist. *)
Lemma unreadable_attachment_stops_the_send_witness :
  let world := platform accepted EmptyString in
  let message : EmailOptions unit := with_attachment missing_file in
  (exists e, outcome (@Index.send unit world key message) = inl e
             /\ @read_error unit world [missing_file] e
             /\ Forall reading (effects (@Index.send unit world key message)))
  /\ (exists e, outcome (@Smtp.sendEmail unit world client message) = inl e
                /\ submissions (effects (@Smtp.sendEmail unit world client message)) = []
                /\ last (effects (@Smtp.sendEmail unit world client message))
                   = Some (smtp_error e)).
Proof.
  intros world message.
  destruct (@unreadable_attachment_stops_the_send unit world key client message
              [missing_file] eq_refl)
    as (Hhttp & _ & (e & He & _ & Hnone & Hlast)).
  - apply Exists_cons_hd. eexists. reflexivity.
  - split; [exact Hhttp |]. exists e. auto.
Defined.

Lemma submitted_message_keeps_the_envelope_witness :
  let world := platform accepted EmptyString in
  let message : EmailOptions unit := plain "Hello" (Some "<b>Hi</b>") in
  let mail := @Smtp.mailOptions unit message [] in
  Mail.subject mail = "Hello" /\ Mail.to mail = "test@example.com"
  /\ Mail.headers mail = ∅.
Proof.
  intros world message mail.
  destruct (@submitted_message_keeps_the_envelope unit world client message
              (Smtp.transporter client) mail)
    as (_ & _ & Hto & _ & Hsubject & _ & Hheaders & _).
  - vm_compute. left.
  - exact (conj Hsubject (conj Hto Hheaders)).
Defined.


Lemma cleanRenderedHtml_only_trims_plain_markup_witness :
  IndexReact.cleanRenderedHtml " <p>Hi</p> " = Js.trim " <p>Hi</p> ".
Proof.
  apply cleanRenderedHtml_only_trims_plain_markup.
  - reflexivity.
  - reflexivity.
  - apply (bool_decide_unpack _). vm_compute. exact I.
Defined.

Lemma every_exchange_uses_the_fixed_transport_witness :
  (forall (options : EmailOptions unit) t mail,
     SendMail t mail
       ∈ effects (@Smtp.sendEmail unit (platform accepted EmptyString) client options) ->
     t = Smtp.transporter client)
  /\ (forall t,
        Verify t
          ∈ effects (@Smtp.verifyConnection unit (platform accepted EmptyString) client) ->
        t = Smtp.transporter client).
Proof.
  exact (@every_exchange_uses_the_fixed_transport unit (platform accepted EmptyString)
           "secret" client eq_refl).
Defined.

(** At a deployment whose endpoint is set in the environment. *)
Lemma requests_go_to_the_configured_endpoint_witness :
  let message : EmailOptions unit := plain "Hello" (Some "<b>Hi</b>") in
  let init :=
    requestInit key ∅ (JSON.stringify (@json_of_options unit staging message)) in
  "http://localhost:3000/send"
  = match @env unit staging "SHOUTBOX_API_ENDPOINT" with
    | Some endpoint => endpoint
    | None => "https://api.shoutbox.net/send"
    end
  /\ RequestInit.method init = "POST".
Proof.
  intros message init.
  apply (proj2 (@requests_go_to_the_configured_endpoint unit staging key message
                  "http://localhost:3000/send" init)).
  vm_compute. left.
Defined.
